(** * connect-mongo: the session store [MongoStore] (src/lib/MongoStore.ts)

    A shallow embedding of the store's operations [get], [set], [touch] and
    [all], of [computeTransformFunctions], [defaultSerializeFunction] and of
    the constructor's defaulting, followed by the properties of the
    specification that concern them.

    Conventions.
    - JavaScript values of type [any] are the trees of [any] below.  A [Date]
      is modelled by its time value in milliseconds (an integer; invalid dates
      and dates that carry properties of their own are outside the model), a
      [number] by an integer.
    - A session is an object, as its type [session.SessionData] declares,
      and [session.cookie] is an instance of express-session's [Cookie]
      ([VCookie]), whose [expires] is an accessor of the prototype, or any
      other value the caller put there.
    - An asynchronous method body [(async () => { try ... catch ... })()] is a
      computation in the monad [M]: it threads the [World] (collection, clock,
      notifications, completions) and may throw.  What was done before a throw
      stays done.
    - [callback(...)] appends to [completions], [this.emit(...)] appends to
      [emitted]. *)

From Stdlib Require Import ZArith List String Ascii Bool Lia.
Import ListNotations.
Local Open Scope string_scope.
Local Open Scope list_scope.
Local Open Scope Z_scope.

Set Implicit Arguments.
Local Set Warnings "-register-all".

(* ------------------------------------------------------------------ *)
(** ** JavaScript values *)

(** [VObj toJSON fields]: an object with its own enumerable properties, an
    association list because [for (prop in session)] visits them in order;
    [toJSON] is [Some r] when the object has a [toJSON] method (on itself
    or its prototype), [r] being what calling it returns.  The properties
    hold values, not functions: a method is no entry of [fields], and the
    loop does not visit it.

    [VCookie toJSON fields]: an instance of express-session's [Cookie], the
    class of [session.cookie].  [fields] are its own properties ([path],
    [_expires], [originalMaxAge], [httpOnly], ...).  Its prototype has the
    accessors [expires] ([get expires() { return this._expires }]) and
    [data], and the method [toJSON() { return this.data }]: [toJSON] is the
    object they return. *)
Inductive any : Type :=
| VUndefined
| VNull
| VBool (b : bool)
| VNum (n : Z)
| VStr (s : string)
| VDate (ms : Z)
| VObj (toJSON : option any) (fields : list (string * any))
| VCookie (toJSON : any) (fields : list (string * any)).

(** What the code can throw. *)
Inductive Exn : Type :=
| TypeError (msg : string)
| SyntaxError (msg : string)
| MongoError (msg : string)
| Error (msg : string)
| Thrown (v : any).

Definition res (A : Type) : Type := (Exn + A)%type.

(** Truthiness, as tested by [if (x)], [x && y], [x || y] and [x ? y : z]. *)
Definition truthy (v : any) : bool :=
  match v with
  | VUndefined | VNull => false
  | VBool b => b
  | VNum n => negb (n =? 0)
  | VStr s => negb (s =? EmptyString)%string
  | VDate _ | VObj _ _ | VCookie _ _ => true
  end.

Fixpoint assoc (k : string) (fs : list (string * any)) : option any :=
  match fs with
  | [] => None
  | (k', v) :: fs' => if (k' =? k)%string then Some v else assoc k fs'
  end.

(** [obj[k] = v]: overwrite in place, or add as the last property. *)
Fixpoint assoc_set (k : string) (v : any) (fs : list (string * any))
  : list (string * any) :=
  match fs with
  | [] => [(k, v)]
  | (k', v') :: fs' =>
      if (k' =? k)%string then (k', v) :: fs' else (k', v') :: assoc_set k v fs'
  end.

(** [delete obj[k]]. *)
Definition assoc_delete (k : string) (fs : list (string * any))
  : list (string * any) :=
  filter (fun kv => negb (fst kv =? k)%string) fs.

(** [v?.k]: [undefined] on [null]/[undefined], on primitives without such
    a property, and on objects that lack it.  On a [Cookie], [expires] and
    [data] are read through the accessors of the prototype: [expires] gives
    the own property [_expires], [data] the object [toJSON()] returns.
    (The prototype's [maxAge], whose value depends on the clock, is read
    nowhere in the store and has no value here.) *)
Definition opt_field (k : string) (v : any) : any :=
  match v with
  | VObj _ fs => match assoc k fs with Some x => x | None => VUndefined end
  | VCookie json fs =>
      if (k =? "expires")%string then
        match assoc "_expires" fs with Some x => x | None => VUndefined end
      else if (k =? "data")%string then json
      else match assoc k fs with Some x => x | None => VUndefined end
  | _ => VUndefined
  end.

(** [v.k]: like [v?.k], but a [TypeError] on [null] and [undefined]. *)
Definition field (k : string) (v : any) : res any :=
  match v with
  | VUndefined => inl (TypeError "Cannot read property of undefined")
  | VNull => inl (TypeError "Cannot read property of null")
  | _ => inr (opt_field k v)
  end.

(** [v.k = x] in strict code (class bodies are strict), for a [k] that
    has no setter (the store assigns [lastModified] only): objects take the
    property, [null], [undefined] and primitives throw.  A [Date] would
    take it too; the model, where a [Date] is its time value, has no place
    for it, and nothing below is stated of a session that is a [Date]. *)
Definition set_field (k : string) (x : any) (v : any) : res any :=
  match v with
  | VObj j fs => inr (VObj j (assoc_set k x fs))
  | VCookie j fs => inr (VCookie j (assoc_set k x fs))
  | VUndefined => inl (TypeError "Cannot set property of undefined")
  | VNull => inl (TypeError "Cannot set property of null")
  | _ => inl (TypeError "Cannot create property on a primitive")
  end.

(** [delete v.k]. *)
Definition delete_field (k : string) (v : any) : any :=
  match v with
  | VObj j fs => VObj j (assoc_delete k fs)
  | VCookie j fs => VCookie j (assoc_delete k fs)
  | _ => v
  end.

(** [k in v] for own properties. *)
Definition has_field (k : string) (v : any) : bool :=
  match v with
  | VObj _ fs | VCookie _ fs =>
      match assoc k fs with Some _ => true | None => false end
  | _ => false
  end.

(** Structural equality of values, used by the model of the driver to tell
    whether an update changed a document. *)
Fixpoint any_eqb (a b : any) {struct a} : bool :=
  let fix fields_eqb (xs ys : list (string * any)) {struct xs} : bool :=
    match xs, ys with
    | [], [] => true
    | (k, x) :: xs', (k', y) :: ys' =>
        (k =? k')%string && any_eqb x y && fields_eqb xs' ys'
    | _, _ => false
    end in
  match a, b with
  | VUndefined, VUndefined => true
  | VNull, VNull => true
  | VBool x, VBool y => Bool.eqb x y
  | VNum x, VNum y => x =? y
  | VStr x, VStr y => (x =? y)%string
  | VDate x, VDate y => x =? y
  | VObj j fs, VObj j' fs' =>
      match j, j' with
      | None, None => true
      | Some x, Some y => any_eqb x y
      | _, _ => false
      end && fields_eqb fs fs'
  | VCookie j fs, VCookie j' fs' => any_eqb j j' && fields_eqb fs fs'
  | _, _ => false
  end.

(* ------------------------------------------------------------------ *)
(** ** What the module imports: the JavaScript runtime and kruptein *)

(** [type CryptoOptions]; [secret: false | string] is [None] for [false]. *)
Record CryptoOptions : Type := {
  co_secret : option (option string);
  co_algorithm : option string;
  co_hashing : option string;
  co_encodeas : option string;
  co_key_size : option Z;
  co_iv_size : option Z;
  co_at_size : option Z
}.

(** [type ConcretCryptoOptions = Required<CryptoOptions>]. *)
Record ConcretCryptoOptions : Type := {
  secret : option string;
  algorithm : string;
  hashing : string;
  encodeas : string;
  key_size : Z;
  iv_size : Z;
  at_size : Z
}.

(** A kruptein instance: [get(secret, ciphertext, cb)] decrypts,
    [set(secret, plaintext, cb)] encrypts; each hands [cb] either an error
    message ([inl]) or a result ([inr]).  The secret is passed as the
    option holds it ([false] is [None]). *)
Record Kruptein : Type := {
  k_get : option string -> any -> (string + any)%type;
  k_set : option string -> any -> (string + any)%type
}.

(** The imported functions the module calls: [JSON.stringify],
    [JSON.parse], [new Date(v)] for a [v] that is not a [Date], and
    [require('kruptein')]. *)
Record Runtime : Type := {
  JSON_stringify : any -> res any;
  JSON_parse : any -> res any;
  Date_from : any -> Z;
  kruptein : ConcretCryptoOptions -> Kruptein
}.

(** [new Date(v)]: a copy when [v] is a [Date], the runtime's conversion
    otherwise. *)
Definition new_Date_of (rt : Runtime) (v : any) : Z :=
  match v with
  | VDate ms => ms
  | _ => Date_from rt v
  end.

(* ------------------------------------------------------------------ *)
(** ** Options *)

Definition transform : Type := any -> res any.

(** [type ConnectMongoOptions]: every field optional.  [clientPromise] is
    kept as the mere presence of a client. *)
Record ConnectMongoOptions : Type := {
  o_mongoUrl : option string;
  o_clientPromise : option unit;
  o_collectionName : option string;
  o_dbName : option string;
  o_ttl : option Z;
  o_createAutoRemoveIdx : option bool;
  o_touchAfter : option Z;
  o_stringify : option bool;
  o_serialize : option transform;
  o_unserialize : option transform;
  o_transformId : option (string -> string);
  o_crypto : option CryptoOptions
}.

(** [type ConcretConnectMongoOptions]. *)
Record ConcretConnectMongoOptions : Type := {
  mongoUrl : option string;
  clientPromise : option unit;
  collectionName : string;
  dbName : option string;
  ttl : Z;
  createAutoRemoveIdx : bool;
  touchAfter : Z;
  stringify : bool;
  serialize : option transform;
  unserialize : option transform;
  transformId : option (string -> string);
  crypto : ConcretCryptoOptions
}.

(** [const unit = (a) => a]. *)
Definition unit_ : transform := fun a => inr a.

(** [Date.prototype.toISOString()], which [Date.prototype.toJSON()]
    returns for a valid date: [YYYY-MM-DDTHH:mm:ss.sssZ] in UTC, the year
    with a sign and six digits outside 0..9999. *)
Definition digit (n : Z) : ascii := ascii_of_nat (48 + Z.to_nat n).

(** The last [width] decimal digits of [n], most significant first. *)
Fixpoint digits (width : nat) (n : Z) : string :=
  match width with
  | O => EmptyString
  | S w => (digits w (n / 10) ++ String (digit (n mod 10)) EmptyString)%string
  end.

(** Year, month and day of the day [days] days after 1970-01-01, in the
    proleptic Gregorian calendar. *)
Definition civil_from_days (days : Z) : Z * Z * Z :=
  let z := days + 719468 in
  let era := z / 146097 in
  let doe := z mod 146097 in
  let yoe := (doe - doe / 1460 + doe / 36524 - doe / 146096) / 365 in
  let doy := doe - (365 * yoe + yoe / 4 - yoe / 100) in
  let mp := (5 * doy + 2) / 153 in
  let d := doy - (153 * mp + 2) / 5 + 1 in
  let m := if mp <? 10 then mp + 3 else mp - 9 in
  let y := yoe + era * 400 + (if m <=? 2 then 1 else 0) in
  (y, m, d).

Definition toISOString (ms : Z) : string :=
  let '(y, m, d) := civil_from_days (ms / 86400000) in
  let t := ms mod 86400000 in
  let year :=
    if (0 <=? y) && (y <=? 9999) then digits 4 y
    else append (if y <? 0 then "-" else "+") (digits 6 (Z.abs y)) in
  let hours := digits 2 (t / 3600000) in
  let minutes := digits 2 (t / 60000 mod 60) in
  let seconds := digits 2 (t / 1000 mod 60) in
  let millis := digits 3 (t mod 1000) in
  (year ++ "-" ++ digits 2 m ++ "-" ++ digits 2 d ++ "T"
   ++ hours ++ ":" ++ minutes ++ ":" ++ seconds ++ "." ++ millis ++ "Z")%string.

(** [session.cookie.toJSON ? session.cookie.toJSON() : session.cookie].
    Reading [toJSON] throws on [null] and [undefined].  An object has the
    method when its [toJSON] slot says so, as a [Cookie] and a [Date] have;
    a property [toJSON] of its own that is not a method makes the test
    true, and the call a [TypeError], when it is truthy.  Booleans, numbers
    and strings have no [toJSON]. *)
Definition cookie_toJSON (cookie : any) : res any :=
  match cookie with
  | VUndefined => inl (TypeError "Cannot read property 'toJSON' of undefined")
  | VNull => inl (TypeError "Cannot read property 'toJSON' of null")
  | VObj (Some json) _ => inr json
  | VCookie json _ => inr json
  | VDate ms => inr (VStr (toISOString ms))
  | VObj None _ =>
      if truthy (opt_field "toJSON" cookie)
      then inl (TypeError "session.cookie.toJSON is not a function")
      else inr cookie
  | VBool _ | VNum _ | VStr _ => inr cookie
  end.

(** The loop body of [defaultSerializeFunction]: [obj] after property
    [prop] of [session] has been copied.  ([obj[prop] = ...] adds or
    overwrites a property for every [prop] but [__proto__], where it would
    set the prototype of [obj]; an own property of that name, which only
    [JSON.parse] creates, is outside the model, and the statements on this
    function exclude it.) *)
Definition copy_prop (session : any) (obj : list (string * any))
  (prop : string) : res (list (string * any)) :=
  if (prop =? "cookie")%string then
    match cookie_toJSON (opt_field "cookie" session) with
    | inl e => inl e
    | inr json => inr (assoc_set "cookie" json obj)
    end
  else inr (assoc_set prop (opt_field prop session) obj).

Fixpoint for_in (session : any) (props : list string)
  (obj : list (string * any)) : res (list (string * any)) :=
  match props with
  | [] => inr obj
  | prop :: rest =>
      match copy_prop session obj prop with
      | inl e => inl e
      | inr obj' => for_in session rest obj'
      end
  end.

(** The property names [for (prop in session)] visits.  A session is an
    object with its own properties; the loop over any other value (the
    indices of a string, the accessors a [Cookie] inherits) is not modelled,
    and nothing below is stated of it. *)
Definition enumerable (session : any) : list string :=
  match session with
  | VObj _ fs => map fst fs
  | _ => []
  end.

Definition defaultSerializeFunction : transform := fun session =>
  match for_in session (enumerable session) [] with
  | inl e => inl e
  | inr obj => inr (VObj None obj)
  end.

Record TransformFunctions : Type := {
  tf_serialize : transform;
  tf_unserialize : transform
}.

(** [a || b] on optional functions. *)
Definition or_else {A : Type} (a : option A) (b : A) : A :=
  match a with Some x => x | None => b end.

Definition is_some {A : Type} (a : option A) : bool :=
  match a with Some _ => true | None => false end.

Section WithRuntime.

Variable rt : Runtime.

Definition computeTransformFunctions (options : ConcretConnectMongoOptions)
  : TransformFunctions :=
  if is_some (serialize options) || is_some (unserialize options) then
    {| tf_serialize := or_else (serialize options) defaultSerializeFunction;
       tf_unserialize := or_else (unserialize options) unit_ |}
  else if negb (stringify options) then
    {| tf_serialize := defaultSerializeFunction;
       tf_unserialize := unit_ |}
  else
    {| tf_serialize := JSON_stringify rt;
       tf_unserialize := JSON_parse rt |}.

(* ------------------------------------------------------------------ *)
(** ** The store object and its constructor *)

Record MongoStore : Type := {
  options : ConcretConnectMongoOptions;
  crypto_ : option Kruptein;
  transformFunctions : TransformFunctions
}.

(** [{ ...defaults, ...crypto }]: a field of [crypto] when given, else
    its default. *)
Definition spread {A : Type} (c : option CryptoOptions)
  (f : CryptoOptions -> option A) (d : A) : A :=
  match c with
  | Some c' => or_else (f c') d
  | None => d
  end.

Definition merge_crypto (c : option CryptoOptions) : ConcretCryptoOptions :=
  {| secret := spread c co_secret None;
     algorithm := spread c co_algorithm "aes-256-gcm";
     hashing := spread c co_hashing "sha512";
     encodeas := spread c co_encodeas "hex";
     key_size := spread c co_key_size 32;
     iv_size := spread c co_iv_size 16;
     at_size := spread c co_at_size 16 |}.

Definition concrete (o : ConnectMongoOptions) : ConcretConnectMongoOptions :=
  {| mongoUrl := o_mongoUrl o;
     clientPromise := o_clientPromise o;
     collectionName := or_else (o_collectionName o) "sessions";
     dbName := o_dbName o;
     ttl := or_else (o_ttl o) 1209600;
     createAutoRemoveIdx := or_else (o_createAutoRemoveIdx o) true;
     touchAfter := or_else (o_touchAfter o) 0;
     stringify := or_else (o_stringify o) true;
     serialize := o_serialize o;
     unserialize := o_unserialize o;
     transformId := o_transformId o;
     crypto := merge_crypto (o_crypto o) |}.

Definition truthy_str (s : option string) : bool :=
  match s with
  | Some s' => negb (s' =? EmptyString)%string
  | None => false
  end.

(** The fields the constructor assigns. *)
Definition construct (o : ConnectMongoOptions) : MongoStore :=
  let options := concrete o in
  {| options := options;
     crypto_ := if truthy_str (secret (crypto options))
                then Some (kruptein rt (crypto options))
                else None;
     transformFunctions := computeTransformFunctions options |}.

(** [new MongoStore(options)] / [MongoStore.create(options)]: throws
    unless a connection source is given. *)
Definition create (o : ConnectMongoOptions) : res MongoStore :=
  if truthy_str (o_mongoUrl o) || is_some (o_clientPromise o)
  then inr (construct o)
  else inl (Error "Cannot init client").

End WithRuntime.

(* ------------------------------------------------------------------ *)
(** ** The world an operation runs in *)

(** [type InternalSessionType]: the stored document.  A document without a
    [session] field has [session = VUndefined]. *)
Record InternalSessionType : Type := {
  _id : string;
  session : any;
  expires : option Z;
  lastModified : option Z
}.

(* ------------------------------------------------------------------ *)
(** ** The MongoDB collection, as far as the store uses it *)

(** The filter documents the store builds. *)
Inductive Filter : Type :=
| F_id (k : string)             (* { _id: k } *)
| F_expires_exists (b : bool)   (* { expires: { $exists: b } } *)
| F_expires_gt (d : Z)          (* { expires: { $gt: d } } *)
| F_or (fs : list Filter)       (* { $or: [ ... ] } *)
| F_and (fs : list Filter).     (* the keys of one filter document *)

Fixpoint matches (f : Filter) (d : InternalSessionType) : bool :=
  match f with
  | F_id k => (_id d =? k)%string
  | F_expires_exists b => Bool.eqb (is_some (expires d)) b
  | F_expires_gt t =>
      match expires d with
      | Some e => e >? t
      | None => false
      end
  | F_or fs => existsb (fun g => matches g d) fs
  | F_and fs => forallb (fun g => matches g d) fs
  end.

(** The [$set] document of an update: the fields it assigns. *)
Record SetFields : Type := {
  u_session : option any;
  u_expires : option Z;
  u_lastModified : option Z
}.

Record UpdateResult : Type := {
  matchedCount : Z;
  modifiedCount : Z;
  upsertedCount : Z
}.

(** An operation asked of the collection. *)
Inductive Call : Type :=
| FindOne (f : Filter)
| Find (f : Filter)
| UpdateOne (k : string) (u : SetFields) (upsert : bool).

(* ------------------------------------------------------------------ *)
(** ** Notifications, completions and the world *)

(** Notifications of the store ([this.emit(name, ...)]). *)
Inductive Event : Type :=
| EvCreate (sid : string)
| EvUpdate (sid : string)
| EvSet (sid : string)
| EvGet (sid : string)
| EvTouch (sid : string) (session : any)
| EvAll (results : list any).

(** One call of an operation's [callback]: [Cb err arg] is
    [callback(err)] when [arg = None] and [callback(err, arg)] otherwise
    ([err = None] standing for [null]); [CbAll results] is
    [callback(null, results)] with the array [all] collected. *)
Inductive Completion : Type :=
| Cb (err : option Exn) (arg : option any)
| CbAll (results : list any).

(** - [docs]: the collection, in natural order;
    - [connected]: whether [collectionP] resolves;
    - [operational]: whether an operation on the collection succeeds;
    - [calls]: the operations asked of the collection, oldest first;
    - [clock], [reads]: the [n]-th reading of the clock is [clock n];
    - [heap]: the caller's objects, by address;
    - [emitted], [completions]: what was emitted and called back, oldest
      first;
    - [uncaught]: exceptions thrown where no handler of the store is in
      scope. *)
Record World : Type := {
  docs : list InternalSessionType;
  connected : bool;
  operational : bool;
  calls : list Call;
  clock : nat -> Z;
  reads : nat;
  heap : nat -> any;
  emitted : list Event;
  completions : list Completion;
  uncaught : list Exn
}.

Definition with_docs (ds : list InternalSessionType) (w : World) : World :=
  {| docs := ds; connected := connected w; operational := operational w;
     calls := calls w;
     clock := clock w; reads := reads w; heap := heap w;
     emitted := emitted w; completions := completions w;
     uncaught := uncaught w |}.

Definition with_reads (n : nat) (w : World) : World :=
  {| docs := docs w; connected := connected w; operational := operational w;
     calls := calls w;
     clock := clock w; reads := n; heap := heap w;
     emitted := emitted w; completions := completions w;
     uncaught := uncaught w |}.

Definition with_heap (h : nat -> any) (w : World) : World :=
  {| docs := docs w; connected := connected w; operational := operational w;
     calls := calls w;
     clock := clock w; reads := reads w; heap := h;
     emitted := emitted w; completions := completions w;
     uncaught := uncaught w |}.

Definition with_emitted (es : list Event) (w : World) : World :=
  {| docs := docs w; connected := connected w; operational := operational w;
     calls := calls w;
     clock := clock w; reads := reads w; heap := heap w;
     emitted := es; completions := completions w;
     uncaught := uncaught w |}.

Definition with_completions (cs : list Completion) (w : World) : World :=
  {| docs := docs w; connected := connected w; operational := operational w;
     calls := calls w;
     clock := clock w; reads := reads w; heap := heap w;
     emitted := emitted w; completions := cs;
     uncaught := uncaught w |}.

Definition with_uncaught (xs : list Exn) (w : World) : World :=
  {| docs := docs w; connected := connected w; operational := operational w;
     calls := calls w;
     clock := clock w; reads := reads w; heap := heap w;
     emitted := emitted w; completions := completions w;
     uncaught := xs |}.

Definition with_calls (cs : list Call) (w : World) : World :=
  {| docs := docs w; connected := connected w; operational := operational w;
     calls := cs;
     clock := clock w; reads := reads w; heap := heap w;
     emitted := emitted w; completions := completions w;
     uncaught := uncaught w |}.

(** The time the next reading of the clock gives. *)
Definition now (w : World) : Z := clock w (reads w).

(* ------------------------------------------------------------------ *)
(** ** The monad of method bodies *)

Definition M (A : Type) : Type := World -> World * res A.

Definition ret {A : Type} (a : A) : M A := fun w => (w, inr a).

Definition bind {A B : Type} (m : M A) (f : A -> M B) : M B :=
  fun w =>
    match m w with
    | (w', inr a) => f a w'
    | (w', inl e) => (w', inl e)
    end.

Definition throw {A : Type} (e : Exn) : M A := fun w => (w, inl e).

Definition lift {A : Type} (r : res A) : M A := fun w => (w, r).

(** [try { body } catch (error) { handler }]. *)
Definition try_catch {A : Type} (body : M A) (handler : Exn -> M A) : M A :=
  fun w =>
    match body w with
    | (w', inr a) => (w', inr a)
    | (w', inl e) => handler e w'
    end.

Declare Scope js_scope.
Delimit Scope js_scope with js.
Notation "x <- m ;; k" := (bind m (fun x => k))
  (at level 61, m at next level, right associativity) : js_scope.
Notation "m ;; k" := (bind m (fun _ => k))
  (at level 61, right associativity) : js_scope.
Local Open Scope js_scope.

Definition callback (c : Completion) : M unit :=
  fun w => (with_completions (completions w ++ [c]) w, inr tt).

Definition emit (e : Event) : M unit :=
  fun w => (with_emitted (emitted w ++ [e]) w, inr tt).

(** [new Date()] and [Date.now()]. *)
Definition Date_now : M Z :=
  fun w => (with_reads (S (reads w)) w, inr (now w)).

Definition deref (ref : nat) : M any := fun w => (w, inr (heap w ref)).

Definition store (ref : nat) (v : any) : M unit :=
  fun w =>
    (with_heap (fun r => if Nat.eqb r ref then v else heap w r) w, inr tt).

(** An exception thrown from inside a callback the driver runs later. *)
Definition escape (e : Exn) : M unit :=
  fun w => (with_uncaught (uncaught w ++ [e]) w, inr tt).

(** [await this.collectionP]. *)
Definition collectionP : M unit :=
  fun w =>
    if connected w then (w, inr tt)
    else (w, inl (MongoError "failed to connect")).

(* ------------------------------------------------------------------ *)
(** ** The MongoDB collection: updates and queries *)

Definition apply_set (u : SetFields) (d : InternalSessionType)
  : InternalSessionType :=
  {| _id := _id d;
     session := or_else (u_session u) (session d);
     expires := match u_expires u with Some e => Some e | None => expires d end;
     lastModified := match u_lastModified u with
                     | Some t => Some t
                     | None => lastModified d
                     end |}.

Definition optZ_eqb (a b : option Z) : bool :=
  match a, b with
  | Some x, Some y => x =? y
  | None, None => true
  | _, _ => false
  end.

Definition doc_eqb (a b : InternalSessionType) : bool :=
  (_id a =? _id b)%string && any_eqb (session a) (session b)
  && optZ_eqb (expires a) (expires b)
  && optZ_eqb (lastModified a) (lastModified b).

(** The first document with [_id = k] gets the fields of [u]; the result
    also tells whether that changed it.  [None]: no such document. *)
Fixpoint update_first (k : string) (u : SetFields)
  (ds : list InternalSessionType)
  : option (list InternalSessionType * bool) :=
  match ds with
  | [] => None
  | d :: ds' =>
      if (_id d =? k)%string then
        Some (apply_set u d :: ds', negb (doc_eqb d (apply_set u d)))
      else
        match update_first k u ds' with
        | Some (ds'', changed) => Some (d :: ds'', changed)
        | None => None
        end
  end.

(** The document an upsert inserts when nothing matches [{ _id: k }]. *)
Definition upserted (k : string) (u : SetFields) : InternalSessionType :=
  {| _id := k;
     session := or_else (u_session u) VUndefined;
     expires := u_expires u;
     lastModified := u_lastModified u |}.

Definition fails {A : Type} : M A :=
  throw (MongoError "operation failed").

Definition log (c : Call) : M unit :=
  fun w => (with_calls (calls w ++ [c]) w, inr tt).

(** [collection.findOne(filter)]. *)
Definition findOne (f : Filter) : M (option InternalSessionType) :=
  log (FindOne f) ;;
  fun w =>
    if operational w then (w, inr (find (matches f) (docs w)))
    else fails w.

(** [collection.find(filter)], with what iterating the cursor gives:
    the matching documents, or an error. *)
Definition collection_find (f : Filter)
  : M (res (list InternalSessionType)) :=
  log (Find f) ;;
  fun w =>
    if operational w then (w, inr (inr (filter (matches f) (docs w))))
    else (w, inr (inl (MongoError "operation failed"))).

(** [collection.updateOne({ _id: k }, { $set: u }, { upsert })].  The
    [$set] document of [set] also names [_id], with the value the filter
    has, which changes nothing; [writeOperationOptions] is handed on to the
    driver as it is and has no part here.  As in MongoDB, [modifiedCount]
    counts the documents the update changed: a matched document that has
    the assigned values already counts for none. *)
Definition updateOne (k : string) (u : SetFields) (upsert : bool)
  : M UpdateResult :=
  log (UpdateOne k u upsert) ;;
  fun w =>
    if operational w then
      match update_first k u (docs w) with
      | Some (ds, changed) =>
          (with_docs ds w,
           inr {| matchedCount := 1;
                  modifiedCount := if changed then 1 else 0;
                  upsertedCount := 0 |})
      | None =>
          if upsert then
            (with_docs (docs w ++ [upserted k u]) w,
             inr {| matchedCount := 0; modifiedCount := 0;
                    upsertedCount := 1 |})
          else
            (w, inr {| matchedCount := 0; modifiedCount := 0;
                       upsertedCount := 0 |})
      end
    else fails w.

(* ------------------------------------------------------------------ *)
(** ** The operations of the store *)

Section Operations.

Variable rt : Runtime.
Variable self : MongoStore.

Definition computeStorageId (sessionId : string) : string :=
  match transformId (options self) with
  | Some f => f sessionId
  | None => sessionId
  end.

(** [util.promisify(f).bind(crypto)(secret, x).catch((err) => { throw new
    Error(err) })]. *)
Definition promisified (f : option string -> any -> (string + any)%type)
  (x : any) : M any :=
  match f (secret (crypto (options self))) x with
  | inl err => throw (Error err)
  | inr data => ret data
  end.

(** The filter shared by [get] and [all]:
    [$or: [{ expires: { $exists: false } }, { expires: { $gt: date } }]]. *)
Definition not_expired (date : Z) : Filter :=
  F_or [F_expires_exists false; F_expires_gt date].

Definition with_session (plaintext : any) (d : InternalSessionType)
  : InternalSessionType :=
  {| _id := _id d; session := plaintext; expires := expires d;
     lastModified := lastModified d |}.

Definition get (sid : string) : M unit :=
  try_catch
    (collectionP ;;
     date <- Date_now ;;
     found <- findOne (F_and [F_id (computeStorageId sid); not_expired date]) ;;
     found' <-
       match crypto_ self, found with
       | Some kr, Some doc =>
           try_catch
             (u <- lift (tf_unserialize (transformFunctions self) (session doc)) ;;
              text <- lift (JSON_stringify rt u) ;;
              plaintext <- promisified (k_get kr) text ;;
              ret (Some (with_session plaintext doc)))
             (fun error => callback (Cb (Some error) None) ;; ret found)
       | _, _ => ret found
       end ;;
     s <- match found' with
          | Some doc =>
              lift (tf_unserialize (transformFunctions self) (session doc))
          | None => ret VNull
          end ;;
     s' <- (if touchAfter (options self) >? 0 then
              match found' with
              | None =>
                  throw (TypeError "Cannot read property 'lastModified' of null")
              | Some doc =>
                  match lastModified doc with
                  | Some t => lift (set_field "lastModified" (VDate t) s)
                  | None => ret s
                  end
              end
            else ret s) ;;
     emit (EvGet sid) ;;
     callback (Cb None (Some s')))
    (fun error => callback (Cb (Some error) None)).

(** [session?.cookie?.expires], from which [set] and [touch] compute the
    expiry: on a [Cookie] the accessor of the prototype, which gives its
    [_expires]; on another object its own property [expires]. *)
Definition cookie_expires (session : any) : any :=
  opt_field "expires" (opt_field "cookie" session).

Definition set_fields (s : InternalSessionType) : SetFields :=
  {| u_session := Some (session s); u_expires := expires s;
     u_lastModified := lastModified s |}.

(** [set(sid, session, callback)]; [ref] is the address of the caller's
    [session] object in the heap. *)
Definition set (sid : string) (ref : nat) : M unit :=
  try_catch
    (before <- deref ref ;;
     (if (touchAfter (options self) >? 0)
         && truthy (opt_field "lastModified" before)
      then store ref (delete_field "lastModified" before)
      else ret tt) ;;
     payload <- deref ref ;;
     serialized <- lift (tf_serialize (transformFunctions self) payload) ;;
     e <- (if truthy (cookie_expires payload)
           then ret (new_Date_of rt (cookie_expires payload))
           else t <- Date_now ;; ret (t + ttl (options self) * 1000)) ;;
     m <- (if touchAfter (options self) >? 0
           then t <- Date_now ;; ret (Some t)
           else ret None) ;;
     let s := {| _id := computeStorageId sid; session := serialized;
                 expires := Some e; lastModified := m |} in
     s' <- match crypto_ self with
           | Some kr =>
               try_catch
                 (data <- promisified (k_set kr) (session s) ;;
                  ret (with_session data s))
                 (fun error => callback (Cb (Some error) None) ;; ret s)
           | None => ret s
           end ;;
     collectionP ;;
     rawResp <- updateOne (_id s') (set_fields s') true ;;
     (if upsertedCount rawResp >? 0
      then emit (EvCreate sid)
      else emit (EvUpdate sid)) ;;
     emit (EvSet sid) ;;
     callback (Cb None None))
    (fun error => callback (Cb (Some error) None)).

(** [date.getTime()]. *)
Definition getTime (v : any) : res Z :=
  match v with
  | VDate ms => inr ms
  | _ => inl (TypeError "getTime is not a function")
  end.

Definition touch (sid : string) (payload : any) : M unit :=
  try_catch
    (let touchAfter_ms := touchAfter (options self) * 1000 in
     lm <- lift (field "lastModified" payload) ;;
     modified <- (if truthy lm then lift (getTime lm) else ret 0) ;;
     currentDate <- Date_now ;;
     let tracked := (touchAfter_ms >? 0) && (modified >? 0) in
     if tracked && (currentDate - modified <? touchAfter_ms) then
       callback (Cb None None)
     else
       updateFields <-
         (if truthy (cookie_expires payload) then
            serialized <- lift (tf_serialize (transformFunctions self) payload) ;;
            ret {| u_session := Some serialized;
                   u_expires := Some (new_Date_of rt (cookie_expires payload));
                   u_lastModified :=
                     if tracked then Some currentDate else None |}
          else
            t <- Date_now ;;
            ret {| u_session := None;
                   u_expires := Some (t + ttl (options self) * 1000);
                   u_lastModified :=
                     if tracked then Some currentDate else None |}) ;;
       collectionP ;;
       rawResp <- updateOne (computeStorageId sid) updateFields false ;;
       if modifiedCount rawResp =? 0 then
         callback (Cb (Some (Error "Unable to find the session to touch")) None)
       else
         emit (EvTouch sid payload) ;;
         callback (Cb None None))
    (fun error => callback (Cb (Some error) None)).

(** The iterator of [all], run over the documents the cursor yields:
    [results.push(unserialize(session.session))]. *)
Fixpoint push_each (ds : list InternalSessionType) (results : list any)
  : res (list any) :=
  match ds with
  | [] => inr results
  | d :: ds' =>
      match tf_unserialize (transformFunctions self) (session d) with
      | inl e => inl e
      | inr v => push_each ds' (results ++ [v])
      end
  end.

(** [collection.find(filter).forEach(iterator, end)]: the driver runs the
    iterator on each matching document, then [end(null)]; a failing cursor
    gives [end(err)].  An exception of the iterator is thrown inside the
    driver, out of reach of the [try] of [all]; what the driver does with it
    is the driver's affair, and is taken here to end the iteration with the
    exception uncaught. *)
Definition all : M unit :=
  try_catch
    (collectionP ;;
     date <- Date_now ;;
     sessions <- collection_find (not_expired date) ;;
     match sessions with
     | inl err => callback (Cb (Some err) None)
     | inr ds =>
         match push_each ds [] with
         | inr results => emit (EvAll results) ;; callback (CbAll results)
         | inl e => escape e
         end
     end)
    (fun error => callback (Cb (Some error) None)).

End Operations.

(* ------------------------------------------------------------------ *)
(** ** Notions the properties are stated with *)

(** A record is live at [t] when its [expires] is absent or strictly
    later than [t]. *)
Definition live (t : Z) (d : InternalSessionType) : bool :=
  match expires d with
  | Some e => t <? e
  | None => true
  end.

(** The world with every record that is not live now physically removed. *)
Definition purge (w : World) : World :=
  with_docs (filter (live (now w)) (docs w)) w.

(** What an operation lets its caller and listeners see. *)
Definition outcome (p : World * res unit)
  : list Completion * list Event * list Exn :=
  (completions (fst p), emitted (fst p), uncaught (fst p)).

(** The stored record of a storage key. *)
Definition by_id (k : string) (d : InternalSessionType) : bool :=
  (_id d =? k)%string.

Definition lookup (k : string) (w : World) : option InternalSessionType :=
  find (by_id k) (docs w).

(** The completions a call added, the world after it being [w']. *)
Definition reported (w w' : World) : list Completion :=
  skipn (List.length (completions w)) (completions w').

(** The notifications a call added. *)
Definition notified (w w' : World) : list Event :=
  skipn (List.length (emitted w)) (emitted w').

(** The operations a call asked of the collection. *)
Definition asked (w w' : World) : list Call :=
  skipn (List.length (calls w)) (calls w').

(** The sentence "for every payload and every configuration, the payload
    [set] stores contains no [lastModified] field", at one call. *)
Definition stores_no_lastModified (rt : Runtime) (self : MongoStore)
  (sid : string) (ref : nat) (w : World) : Prop :=
  forall d,
    lookup (computeStorageId self sid) (fst (set rt self sid ref w)) = Some d ->
    has_field "lastModified" (session d) = false.

(** The expiry [set] gives a record, [t] being the time it reads when the
    cookie of the payload carries none. *)
Definition recomputed_expires (rt : Runtime) (self : MongoStore)
  (payload : any) (t : Z) : Z :=
  if truthy (cookie_expires payload)
  then new_Date_of rt (cookie_expires payload)
  else t + ttl (options self) * 1000.

(** The sentence "with [touchAfter = N > 0], a touch whose payload was
    modified less than [N] seconds ago ([lastModified] taken as 0 when
    absent) writes nothing and reports success, and any other touch sets
    the stored [lastModified] to now and recomputes [expires]", at one call
    on a working collection that holds the record. *)
Definition touch_tracks_idle_time (rt : Runtime) (self : MongoStore)
  (sid : string) (payload : any) (w : World) : Prop :=
  let w' := fst (touch rt self sid payload w) in
  let modified := match opt_field "lastModified" payload with
                  | VDate t => t
                  | _ => 0
                  end in
  touchAfter (options self) > 0 ->
  (now w - modified < touchAfter (options self) * 1000 ->
   asked w w' = [] /\ reported w w' = [Cb None None])
  /\ (now w - modified >= touchAfter (options self) * 1000 ->
      exists d',
        lookup (computeStorageId self sid) w' = Some d'
        /\ lastModified d' = Some (now w)
        /\ expires d'
           = Some (recomputed_expires rt self payload (clock w (S (reads w))))).

(** The sentence "when only one of [serialize] and [unserialize] is given,
    it is used and the missing one is the identity", for one set of
    options. *)
Definition missing_transform_is_identity (rt : Runtime)
  (options : ConcretConnectMongoOptions) : Prop :=
  let tf := computeTransformFunctions rt options in
  (forall s, serialize options = Some s -> unserialize options = None ->
             tf_serialize tf = s /\ forall x, tf_unserialize tf x = inr x)
  /\ (forall u, serialize options = None -> unserialize options = Some u ->
                tf_unserialize tf = u /\ forall x, tf_serialize tf x = inr x).

(* ------------------------------------------------------------------ *)
(** ** Concrete stores and worlds *)

Module Scenario.

(** A kruptein whose decryption rejects every ciphertext. *)
Definition tampered : Kruptein :=
  {| k_get := fun _ _ => inl "Encrypted session was tampered with!";
     k_set := fun _ plaintext => inr (VObj None [("ct", plaintext)]) |}.

(** A stand-in runtime: every value stringifies to ["{}"], which parses
    to the empty object. *)
Definition runtime : Runtime :=
  {| JSON_stringify := fun _ => inr (VStr "{}");
     JSON_parse := fun v =>
       match v with
       | VStr "{}" => inr (VObj None [])
       | _ => inl (SyntaxError "Unexpected token")
       end;
     Date_from := fun _ => 0;
     kruptein := fun _ => tampered |}.

(** [{ mongoUrl, ttl: 60, touchAfter, stringify: false, crypto }]. *)
Definition opts (touchAfter : Z) (crypto : option CryptoOptions)
  : ConnectMongoOptions :=
  {| o_mongoUrl := Some "mongodb://localhost/test";
     o_clientPromise := None;
     o_collectionName := None;
     o_dbName := None;
     o_ttl := Some 60;
     o_createAutoRemoveIdx := None;
     o_touchAfter := Some touchAfter;
     o_stringify := Some false;
     o_serialize := None;
     o_unserialize := None;
     o_transformId := None;
     o_crypto := crypto |}.

Definition with_secret (s : string) : CryptoOptions :=
  {| co_secret := Some (Some s); co_algorithm := None; co_hashing := None;
     co_encodeas := None; co_key_size := None; co_iv_size := None;
     co_at_size := None |}.

(** Idle-touch tracking on (30 s), off, and off with encryption. *)
Definition tracking : MongoStore := construct runtime (opts 30 None).
Definition plain : MongoStore := construct runtime (opts 0 None).
Definition encrypting : MongoStore :=
  construct runtime (opts 0 (Some (with_secret "squirrel"))).

(** [{ mongoUrl, unserialize }]: only one of the two transforms. *)
Definition only_unserialize (u : transform) : ConnectMongoOptions :=
  {| o_mongoUrl := Some "mongodb://localhost/test";
     o_clientPromise := None;
     o_collectionName := None;
     o_dbName := None;
     o_ttl := None;
     o_createAutoRemoveIdx := None;
     o_touchAfter := None;
     o_stringify := None;
     o_serialize := None;
     o_unserialize := Some u;
     o_transformId := None;
     o_crypto := None |}.

(** An express-session [Cookie] instance without an expiry: its
    [toJSON()] gives the plain data object. *)
Definition cookie : any :=
  VCookie (VObj None [("originalMaxAge", VNull); ("expires", VNull);
                      ("httpOnly", VBool true); ("path", VStr "/")])
          [("path", VStr "/"); ("_expires", VNull);
           ("originalMaxAge", VNull); ("httpOnly", VBool true)].

(** A [Cookie] instance that expires at 1000500 ms: the date is its own
    property [_expires], which the accessor [expires] reads. *)
Definition expiring_cookie : any :=
  VCookie (VObj None [("originalMaxAge", VNum 500);
                      ("expires", VDate 1000500);
                      ("httpOnly", VBool true); ("path", VStr "/")])
          [("path", VStr "/"); ("_expires", VDate 1000500);
           ("originalMaxAge", VNum 500); ("httpOnly", VBool true)].

(** [{ cookie: {}, user: "u1" }] and the same with the [lastModified]
    that [get] attaches. *)
Definition payload : any :=
  VObj None [("cookie", VObj None []); ("user", VStr "u1")].

Definition payload_modified (t : Z) : any :=
  VObj None [("cookie", VObj None []); ("user", VStr "u1");
             ("lastModified", VDate t)].

Definition record (e m : option Z) : InternalSessionType :=
  {| _id := "abc"; session := payload; expires := e; lastModified := m |}.

(** [{ cookie, user: "u1" }] as express-session hands it to the store. *)
Definition live_session : any :=
  VObj None [("cookie", cookie); ("user", VStr "u1")].

(** [{ cookie, user: "u1" }] with the cookie that expires, the same with
    the [lastModified] that [get] attaches, and what
    [defaultSerializeFunction] makes of the first. *)
Definition expiring_session : any :=
  VObj None [("cookie", expiring_cookie); ("user", VStr "u1")].

Definition expiring_modified (t : Z) : any :=
  VObj None [("cookie", expiring_cookie); ("user", VStr "u1");
             ("lastModified", VDate t)].

Definition expiring_serialized : any :=
  VObj None [("cookie",
              VObj None [("originalMaxAge", VNum 500);
                         ("expires", VDate 1000500);
                         ("httpOnly", VBool true); ("path", VStr "/")]);
             ("user", VStr "u1")].

(** What [set] of the [encrypting] store writes for [payload]. *)
Definition ciphertext : any := VObj None [("ct", payload)].

Definition encrypted_record : InternalSessionType :=
  {| _id := "abc"; session := ciphertext; expires := Some 2000000;
     lastModified := None |}.

(** A world whose clock reads 1000000 ms, then one ms more each time; the
    caller's object at every address is [obj]. *)
Definition world (ds : list InternalSessionType) (obj : any) : World :=
  {| docs := ds; connected := true; operational := true; calls := [];
     clock := fun n => 1000000 + Z.of_nat n; reads := 0;
     heap := fun _ => obj;
     emitted := []; completions := []; uncaught := [] |}.

(** The worlds of the examples: an empty collection; the same with a
    caller's payload that carries [lastModified]; a collection holding the
    record of ["abc"], live until 1000500 and last modified at 5; one
    holding it expired at 1000000; one holding an encrypted record. *)
Definition fresh : World := world [] payload.
Definition fresh_modified : World := world [] (payload_modified 5).
Definition stored : World := world [record (Some 1000500) (Some 5)] payload.
Definition lapsed : World := world [record (Some 1000000) None] payload.
Definition encrypted : World := world [encrypted_record] payload.

(** An empty collection, and one holding the record of ["abc"] live until
    1000400, the caller's payload being the session whose [Cookie]
    expires at 1000500. *)
Definition expiring : World := world [] expiring_session.
Definition expiring_stored : World :=
  world [{| _id := "abc"; session := expiring_serialized;
            expires := Some 1000400; lastModified := None |}]
        expiring_session.

End Scenario.

(* ------------------------------------------------------------------ *)
(** ** [destroy], [length] and [clear] *)

(** These three methods are promise chains
    [this.collectionP.then(...).then(...).catch(...)].  They run in the
    world above extended with what only they produce: the ['destroy']
    notifications and the operations they ask of the collection. *)
Inductive Request : Type :=
| DeleteOne (k : string)   (* deleteOne({ _id: k }) *)
| CountDocuments           (* countDocuments() *)
| Drop.                    (* drop() *)

Record Beyond : Type := {
  destroyed : list string;
  requests : list Request
}.

Definition P (A : Type) : Type := World * Beyond -> (World * Beyond) * res A.

(** [p.then(f)]: [f] runs on the value [p] resolves with; a rejection
    passes through. *)
Definition then_ {A B : Type} (p : P A) (f : A -> P B) : P B :=
  fun s =>
    match p s with
    | (s', inr a) => f a s'
    | (s', inl e) => (s', inl e)
    end.

(** [p.catch(h)]: [h] runs on the error [p] rejects with. *)
Definition catch_ {A : Type} (p : P A) (h : Exn -> P A) : P A :=
  fun s =>
    match p s with
    | (s', inr a) => (s', inr a)
    | (s', inl e) => h e s'
    end.

(** A computation of the store's world, run in the extended one. *)
Definition within {A : Type} (m : M A) : P A :=
  fun s =>
    match m (fst s) with
    | (w', r) => ((w', snd s), r)
    end.

Definition request (q : Request) : P unit :=
  fun s =>
    ((fst s, {| destroyed := destroyed (snd s);
                requests := requests (snd s) ++ [q] |}), inr tt).

(** [this.emit('destroy', sid)]. *)
Definition emit_destroy (sid : string) : P unit :=
  fun s =>
    ((fst s, {| destroyed := destroyed (snd s) ++ [sid];
                requests := requests (snd s) |}), inr tt).

(** The collection without its first document of [_id = k]. *)
Fixpoint delete_first (k : string) (ds : list InternalSessionType)
  : list InternalSessionType :=
  match ds with
  | [] => []
  | d :: ds' => if (_id d =? k)%string then ds' else d :: delete_first k ds'
  end.

(** [collection.deleteOne({ _id: k })], resolving with [deletedCount]. *)
Definition deleteOne (k : string) : P Z :=
  then_ (request (DeleteOne k))
    (fun _ => within
       (fun w =>
          if operational w then
            (with_docs (delete_first k (docs w)) w,
             inr (if existsb (by_id k) (docs w) then 1 else 0))
          else fails w)).

(** [collection.countDocuments()]: the count of all documents, no filter
    being given. *)
Definition countDocuments : P Z :=
  then_ (request CountDocuments)
    (fun _ => within
       (fun w =>
          if operational w then (w, inr (Z.of_nat (List.length (docs w))))
          else fails w)).

(** [collection.drop()], on a collection that exists. *)
Definition drop : P bool :=
  then_ (request Drop)
    (fun _ => within
       (fun w =>
          if operational w then (with_docs [] w, inr true)
          else fails w)).

Section PromiseChains.

Variable self : MongoStore.

Definition destroy (sid : string) : P unit :=
  catch_
    (then_
       (then_ (within collectionP)
          (fun _ => deleteOne (computeStorageId self sid)))
       (fun _ =>
          then_ (emit_destroy sid)
            (fun _ => within (callback (Cb None None)))))
    (fun err => within (callback (Cb (Some err) None))).

End PromiseChains.

(** [length(callback)]; [callback(null, c)] is [Cb None (Some (VNum c))]. *)
Definition length : P unit :=
  catch_
    (then_
       (then_ (within collectionP) (fun _ => countDocuments))
       (fun c => within (callback (Cb None (Some (VNum c))))))
    (fun err => within (callback (Cb (Some err) None))).

Definition clear : P unit :=
  catch_
    (then_
       (then_ (within collectionP) (fun _ => drop))
       (fun _ => within (callback (Cb None None))))
    (fun err => within (callback (Cb (Some err) None))).


(** A collection holds at most one document for an [_id]. *)
Definition unique_ids (w : World) : Prop := NoDup (map _id (docs w)).

(** The extended world in which nothing was destroyed or requested yet. *)
Definition beyond (w : World) : World * Beyond :=
  (w, {| destroyed := []; requests := [] |}).

(** What an upsert of the fields [u] under the key [k] makes of a
    collection. *)
Definition upsert (k : string) (u : SetFields)
  (ds : list InternalSessionType) : list InternalSessionType :=
  match update_first k u ds with
  | Some (ds', _) => ds'
  | None => ds ++ [upserted k u]
  end.

(** What [set] stores for a serialized payload: the payload encrypted
    when a kruptein is there and encrypts it, the expiry, and the time of
    modification under tracking. *)
Definition stored_session (self : MongoStore) (serialized : any) : any :=
  match crypto_ self with
  | Some kr =>
      match k_set kr (secret (crypto (options self))) serialized with
      | inr data => data
      | inl _ => serialized
      end
  | None => serialized
  end.

(** The fields [set] assigns in a world [w] to the record of a payload
    that serialized to [serialized]: the time of modification is read
    after the expiry, which reads the clock itself when the cookie carries
    none. *)
Definition set_assigns (rt : Runtime) (self : MongoStore) (ref : nat)
  (w : World) (serialized : any) : SetFields :=
  {| u_session := Some (stored_session self serialized);
     u_expires := Some (recomputed_expires rt self (heap w ref) (now w));
     u_lastModified :=
       if touchAfter (options self) >? 0
       then Some (clock w (if truthy (cookie_expires (heap w ref))
                           then reads w else S (reads w)))
       else None |}.

(** More worlds for the examples. *)
Module More.

(** The world [Scenario.stored] with the connection down. *)
Definition offline : World :=
  {| docs := docs Scenario.stored; connected := false; operational := true;
     calls := []; clock := clock Scenario.stored; reads := 0;
     heap := heap Scenario.stored;
     emitted := []; completions := []; uncaught := [] |}.

(** A kruptein that fails at both ends, a runtime that gives it, and a
    store with encryption on over them. *)
Definition jammed : Kruptein :=
  {| k_get := fun _ _ => inl "Encrypted session was tampered with!";
     k_set := fun _ _ => inl "Unable to encrypt" |}.

Definition jammed_runtime : Runtime :=
  {| JSON_stringify := JSON_stringify Scenario.runtime;
     JSON_parse := JSON_parse Scenario.runtime;
     Date_from := Date_from Scenario.runtime;
     kruptein := fun _ => jammed |}.

Definition jamming : MongoStore :=
  construct jammed_runtime
    (Scenario.opts 0 (Some (Scenario.with_secret "squirrel"))).

(** A store whose [serialize] throws on every payload. *)
Definition refusing : MongoStore :=
  construct Scenario.runtime
    {| o_mongoUrl := Some "mongodb://localhost/test";
       o_clientPromise := None;
       o_collectionName := None;
       o_dbName := None;
       o_ttl := None;
       o_createAutoRemoveIdx := None;
       o_touchAfter := None;
       o_stringify := None;
       o_serialize := Some (fun _ => inl (Thrown (VStr "refused")));
       o_unserialize := None;
       o_transformId := None;
       o_crypto := None |}.

(** A payload whose cookie carries an expiry, and a world that holds the
    record [set] of the store [Scenario.plain] made of it. *)
Definition dated_payload : any :=
  VObj None [("cookie", VObj None [("expires", VDate 1000500)]);
             ("user", VStr "u1")].

Definition dated_record : InternalSessionType :=
  {| _id := "abc"; session := dated_payload; expires := Some 1000500;
     lastModified := None |}.

Definition settled : World := Scenario.world [dated_record] dated_payload.

(** Nothing destroyed or requested yet. *)
Definition nothing : Beyond := {| destroyed := []; requests := [] |}.

End More.

(** A kruptein that encrypts by wrapping the plaintext and decrypts by
    unwrapping, rejecting what is not wrapped, and a store using it with
    the payload kept as an object ([stringify: false]). *)
Module Sealed.

Definition seal : Kruptein :=
  {| k_get := fun _ text =>
       match text with
       | VObj None [("sealed", plaintext)] => inr plaintext
       | _ => inl "Encrypted session was tampered with!"
       end;
     k_set := fun _ plaintext => inr (VObj None [("sealed", plaintext)]) |}.

(** A runtime whose [JSON.stringify] is a stand-in that leaves its
    argument as it is. *)
Definition runtime : Runtime :=
  {| JSON_stringify := fun v => inr v;
     JSON_parse := fun v => inr v;
     Date_from := fun _ => 0;
     kruptein := fun _ => seal |}.

Definition sealing : MongoStore :=
  construct runtime (Scenario.opts 0 (Some (Scenario.with_secret "squirrel"))).

Definition sealed_record : InternalSessionType :=
  {| _id := "abc";
     session := VObj None [("sealed", Scenario.payload)];
     expires := Some 2000000;
     lastModified := None |}.

Definition world : World := Scenario.world [sealed_record] Scenario.payload.

End Sealed.

(** What [defaultSerializeFunction] copies for a property of the session,
    [json] being what it stores for the cookie. *)
Definition copied (json : any) (kv : string * any) : string * any :=
  if (fst kv =? "cookie")%string then (fst kv, json) else kv.

(* ------------------------------------------------------------------ *)
(** ** Tactics and lemmas on lists *)

Ltac unfold_monad :=
  cbv [try_catch bind ret throw lift callback emit Date_now deref store
       escape collectionP log findOne collection_find updateOne fails
       promisified].

(** Case analysis on a scrutinee that contains no other case analysis. *)
Ltac split_match :=
  repeat match goal with
         | |- context [match ?x with _ => _ end] =>
             lazymatch x with
             | context [match _ with _ => _ end] => fail
             | _ => destruct x eqn:?; simpl
             end
         end.

Arguments matches : simpl never.

Lemma find_filter {A : Type} (p q : A -> bool) (l : list A) :
  (forall x, p x = true -> q x = true) ->
  find p (filter q l) = find p l.
Proof.
  intros Hpq. induction l as [|x l IH]; simpl; [reflexivity|].
  destruct (q x) eqn:Hq; simpl.
  - destruct (p x); [reflexivity | exact IH].
  - destruct (p x) eqn:Hp; [|exact IH].
    apply Hpq in Hp. congruence.
Qed.

Lemma filter_filter {A : Type} (p q : A -> bool) (l : list A) :
  (forall x, p x = true -> q x = true) ->
  filter p (filter q l) = filter p l.
Proof.
  intros Hpq. induction l as [|x l IH]; simpl; [reflexivity|].
  destruct (q x) eqn:Hq; simpl.
  - destruct (p x); [f_equal|]; exact IH.
  - destruct (p x) eqn:Hp; [|exact IH].
    apply Hpq in Hp. congruence.
Qed.

Lemma skipn_length_app {A : Type} (l l' : list A) :
  skipn (List.length l) (l ++ l') = l'.
Proof. induction l; simpl; auto. Qed.

Lemma added_one {A : Type} (l : list A) (c : A) :
  skipn (List.length l) (l ++ [c]) = [c].
Proof. apply skipn_length_app. Qed.

Lemma added_two {A : Type} (l : list A) (c c' : A) :
  skipn (List.length l) ((l ++ [c]) ++ [c']) = [c; c'].
Proof. rewrite <- app_assoc. apply skipn_length_app. Qed.

Lemma added_none {A : Type} (l : list A) :
  skipn (List.length l) l = [].
Proof. apply skipn_all. Qed.

(** Rewrites what a call added to a log into the list it added. *)
Ltac added := rewrite ?added_one, ?added_two, ?added_none.

(* ------------------------------------------------------------------ *)
(** ** The expiry filter *)

Lemma matches_not_expired (t : Z) (d : InternalSessionType) :
  matches (not_expired t) d = live t d.
Proof.
  unfold not_expired, live; cbv [matches existsb].
  destruct (expires d) as [e|]; simpl; [|reflexivity].
  rewrite Z.gtb_ltb. now rewrite orb_false_r.
Qed.

Lemma matches_get_query (k : string) (t : Z) (d : InternalSessionType) :
  matches (F_and [F_id k; not_expired t]) d
  = (_id d =? k)%string && live t d.
Proof.
  change (matches (F_and [F_id k; not_expired t]) d)
    with ((_id d =? k)%string && (matches (not_expired t) d && true)).
  now rewrite matches_not_expired, andb_true_r.
Qed.

(** C1.  A record whose [expires] is present and not strictly greater than
    the current time is matched neither by the query of [get] nor by the
    query of [all], these being the one query each asks of the collection;
    and what [get] and [all] report (completions, notifications) is what
    they report in the world from which every such record has been
    removed, a world the record is not in. *)
Theorem expired_record_never_read :
  forall (rt : Runtime) (self : MongoStore) (sid : string) (w : World)
         (d : InternalSessionType) (e : Z),
    let get_query :=
      F_and [F_id (computeStorageId self sid); not_expired (now w)] in
    let all_query := not_expired (now w) in
    expires d = Some e ->
    e <= now w ->
    (matches get_query d = false /\ matches all_query d = false)
    /\ (asked w (fst (get rt self sid w))
        = if connected w then [FindOne get_query] else [])
    /\ (asked w (fst (all self w))
        = if connected w then [Find all_query] else [])
    /\ ~ In d (docs (purge w))
    /\ outcome (get rt self sid w) = outcome (get rt self sid (purge w))
    /\ outcome (all self w) = outcome (all self (purge w)).
Proof.
  intros rt self sid w d e get_query all_query He Hle.
  subst get_query all_query.
  assert (Hd : live (now w) d = false).
  { unfold live. rewrite He. apply Z.ltb_ge. exact Hle. }
  split; [split|split; [|split; [|split; [|split]]]].
  - rewrite matches_get_query, Hd. apply andb_false_r.
  - now rewrite matches_not_expired.
  - unfold asked, get. unfold_monad. simpl.
    destruct (connected w); simpl; [|now added].
    unfold now. split_match; now added.
  - unfold asked, all. unfold_monad. simpl.
    destruct (connected w); simpl; [|now added].
    unfold now. split_match; now added.
  - unfold purge; simpl. rewrite filter_In. intros [_ H]. congruence.
  - unfold outcome, get. unfold_monad. unfold purge at 1. simpl.
    destruct (connected w); [|reflexivity]. simpl.
    destruct (operational w); [|reflexivity].
    change (now (with_docs (filter (live (now w)) (docs w)) w)) with (now w).
    rewrite find_filter.
    2:{ intros x Hx. rewrite matches_get_query in Hx.
        now apply andb_prop in Hx. }
    unfold now. split_match; congruence.
  - unfold outcome, all. unfold_monad. unfold purge at 1. simpl.
    destruct (connected w); [|reflexivity]. simpl.
    destruct (operational w); [|reflexivity].
    change (now (with_docs (filter (live (now w)) (docs w)) w)) with (now w).
    rewrite filter_filter.
    2:{ intros x Hx. now rewrite matches_not_expired in Hx. }
    unfold now. split_match; congruence.
Qed.

Lemma expired_record_never_read_witness :
  expires (Scenario.record (Some 1000000) None) = Some 1000000
  /\ 1000000 <= now Scenario.lapsed
  /\ docs (purge Scenario.lapsed) = []
  /\ outcome (get Scenario.runtime Scenario.plain "abc" Scenario.lapsed)
     = ([Cb None (Some VNull)], [EvGet "abc"], [])
  /\ outcome (all Scenario.plain Scenario.lapsed)
     = ([CbAll []], [EvAll []], []).
Proof.
  destruct (expired_record_never_read
              Scenario.runtime Scenario.plain "abc" Scenario.lapsed
              (Scenario.record (Some 1000000) None) (e := 1000000))
    as (_ & _ & _ & _ & Hget & Hall).
  - reflexivity.
  - vm_compute. discriminate.
  - split; [reflexivity|]. split; [vm_compute; discriminate|].
    split; [reflexivity|]. split.
    + rewrite Hget. reflexivity.
    + rewrite Hall. reflexivity.
Defined.

(* ------------------------------------------------------------------ *)
(** ** The collection under [updateOne] *)

Lemma update_first_some (k : string) (u : SetFields)
  (ds ds' : list InternalSessionType) (changed : bool) :
  update_first k u ds = Some (ds', changed) ->
  exists d, find (by_id k) ds = Some d
            /\ find (by_id k) ds' = Some (apply_set u d)
            /\ List.length ds' = List.length ds
            /\ changed = negb (doc_eqb d (apply_set u d)).
Proof.
  revert ds' changed.
  induction ds as [|d ds IH]; intros ds' changed H; simpl in H; [discriminate|].
  unfold by_id; simpl.
  destruct (_id d =? k)%string eqn:Hk.
  - inversion H; subst. exists d. simpl. rewrite Hk. auto.
  - destruct (update_first k u ds) as [[ds'' c]|] eqn:Hu; [|discriminate].
    inversion H; subst.
    destruct (IH _ _ eq_refl) as (d' & H1 & H2 & H3 & H4).
    exists d'. simpl. rewrite Hk. auto.
Qed.

Lemma update_first_none (k : string) (u : SetFields)
  (ds : list InternalSessionType) :
  update_first k u ds = None <-> find (by_id k) ds = None.
Proof.
  unfold by_id.
  induction ds as [|d ds IH]; simpl; [tauto|].
  destruct (_id d =? k)%string; [split; discriminate|].
  destruct (update_first k u ds) as [[ds' c]|].
  - split; [discriminate|]. intros H. apply IH in H. discriminate.
  - tauto.
Qed.

Lemma find_app_last {A : Type} (p : A -> bool) (l : list A) (x : A) :
  find p l = None -> p x = true -> find p (l ++ [x]) = Some x.
Proof.
  induction l as [|y l IH]; simpl; intros H Hx.
  - now rewrite Hx.
  - destruct (p y); [discriminate | auto].
Qed.

(* ------------------------------------------------------------------ *)
(** ** Properties of objects *)

Lemma assoc_delete_other (k k' : string) (fs : list (string * any)) :
  k <> k' -> assoc k (assoc_delete k' fs) = assoc k fs.
Proof.
  intros Hk. unfold assoc_delete.
  induction fs as [|[k0 v] fs IH]; simpl; [reflexivity|].
  destruct (k0 =? k')%string eqn:E'; simpl.
  - apply String.eqb_eq in E'. subst k0.
    destruct (k' =? k)%string eqn:E; [|exact IH].
    apply String.eqb_eq in E. congruence.
  - destruct (k0 =? k)%string; [reflexivity | exact IH].
Qed.

Lemma assoc_delete_same (k : string) (fs : list (string * any)) :
  assoc k (assoc_delete k fs) = None.
Proof.
  unfold assoc_delete.
  induction fs as [|[k0 v] fs IH]; simpl; [reflexivity|].
  destruct (k0 =? k)%string eqn:E; simpl; [exact IH|].
  now rewrite E.
Qed.

(** Deleting a property other than [_expires], which the accessor
    [expires] of a [Cookie] reads, leaves every other property as it
    reads. *)
Lemma opt_field_delete_other (k k' : string) (v : any) :
  k <> k' -> k' <> "_expires"%string ->
  opt_field k (delete_field k' v) = opt_field k v.
Proof.
  intros Hk He. destruct v; simpl; try reflexivity.
  - now rewrite assoc_delete_other.
  - rewrite (assoc_delete_other (k := "_expires") (k' := k')) by congruence.
    now rewrite assoc_delete_other.
Qed.

Lemma has_field_delete_other (k k' : string) (v : any) :
  k <> k' -> has_field k (delete_field k' v) = has_field k v.
Proof.
  intros Hk. destruct v; simpl; try reflexivity.
  all: now rewrite assoc_delete_other.
Qed.

Lemma has_field_delete_same (k : string) (v : any) :
  has_field k (delete_field k v) = false.
Proof.
  destruct v; simpl; try reflexivity.
  all: now rewrite assoc_delete_same.
Qed.

(** A deleted property reads [undefined], unless it names an accessor of
    a [Cookie]. *)
Lemma opt_field_delete_same (k : string) (v : any) :
  k <> "expires"%string -> k <> "data"%string ->
  opt_field k (delete_field k v) = VUndefined.
Proof.
  intros He Hd. destruct v; simpl; try reflexivity.
  - now rewrite assoc_delete_same.
  - apply String.eqb_neq in He, Hd. rewrite He, Hd.
    now rewrite assoc_delete_same.
Qed.

Lemma cookie_expires_delete (v : any) :
  cookie_expires (delete_field "lastModified" v) = cookie_expires v.
Proof.
  unfold cookie_expires. rewrite opt_field_delete_other; [reflexivity| |].
  all: discriminate.
Qed.

(* ------------------------------------------------------------------ *)
(** ** [set] *)

(** C7.  Whenever [set] reports success, the notifications it emitted are
    either [create] then [set], the upsert having inserted a record for a
    key that had none, or [update] then [set], the upsert having replaced
    the record of the key. *)
Theorem set_emits_create_or_update_then_set :
  forall (rt : Runtime) (self : MongoStore) (sid : string) (ref : nat)
         (w : World),
    let w' := fst (set rt self sid ref w) in
    In (Cb None None) (reported w w') ->
    (lookup (computeStorageId self sid) w = None
     /\ List.length (docs w') = S (List.length (docs w))
     /\ notified w w' = [EvCreate sid; EvSet sid])
    \/
    (lookup (computeStorageId self sid) w <> None
     /\ List.length (docs w') = List.length (docs w)
     /\ notified w w' = [EvUpdate sid; EvSet sid]).
Proof.
  intros rt self sid ref w w'. subst w'.
  unfold reported, notified, lookup, set. unfold_monad. simpl.
  split_match; added.
  all: try (intros H; simpl in H; intuition discriminate).
  all: intros _.
  all: match goal with
       | H : update_first _ _ _ = Some _ |- _ =>
           right; destruct (update_first_some _ _ _ H) as (d & H1 & _ & H3 & _);
           repeat split; [unfold by_id in *; congruence | exact H3]
       | H : update_first _ _ _ = None |- _ =>
           left; apply update_first_none in H;
           repeat split; [exact H | rewrite length_app; simpl; lia]
       end.
Qed.

Lemma set_emits_create_or_update_then_set_witness :
  In (Cb None None)
    (reported Scenario.fresh
       (fst (set Scenario.runtime Scenario.tracking "abc" 0 Scenario.fresh)))
  /\ notified Scenario.fresh
       (fst (set Scenario.runtime Scenario.tracking "abc" 0 Scenario.fresh))
     = [EvCreate "abc"; EvSet "abc"]
  /\ notified Scenario.stored
       (fst (set Scenario.runtime Scenario.tracking "abc" 0 Scenario.stored))
     = [EvUpdate "abc"; EvSet "abc"].
Proof.
  split; [vm_compute; auto|]. split.
  - destruct (set_emits_create_or_update_then_set
                Scenario.runtime Scenario.tracking "abc" 0 Scenario.fresh)
      as [(_ & _ & H) | (H & _)].
    + vm_compute. auto.
    + exact H.
    + exfalso. apply H. reflexivity.
  - destruct (set_emits_create_or_update_then_set
                Scenario.runtime Scenario.tracking "abc" 0 Scenario.stored)
      as [(H & _) | (_ & _ & H)].
    + vm_compute. auto.
    + vm_compute in H. discriminate.
    + exact H.
Defined.

(** The expiry of the record a successful [set] leaves under the storage
    key. *)
Lemma set_expiry (rt : Runtime) (self : MongoStore) (sid : string)
  (ref : nat) (w : World) :
  In (Cb None None) (reported w (fst (set rt self sid ref w))) ->
  exists d,
    lookup (computeStorageId self sid) (fst (set rt self sid ref w)) = Some d
    /\ (truthy (cookie_expires (heap w ref)) = false ->
        expires d = Some (now w + ttl (options self) * 1000))
    /\ (truthy (cookie_expires (heap w ref)) = true ->
        expires d = Some (new_Date_of rt (cookie_expires (heap w ref))))
    /\ (forall t, cookie_expires (heap w ref) = VDate t ->
                  expires d = Some t).
Proof.
  unfold reported, lookup, set. unfold_monad. simpl.
  split_match; added.
  all: try (intros H; simpl in H; intuition discriminate).
  all: intros _; rewrite ?cookie_expires_delete in *.
  all: match goal with
       | H : update_first _ _ _ = Some _ |- _ =>
           destruct (update_first_some _ _ _ H) as (d & _ & H2 & _);
           eexists; split; [exact H2|]
       | H : update_first _ _ _ = None |- _ =>
           apply update_first_none in H;
           eexists; split;
           [apply find_app_last; [exact H | apply String.eqb_refl]|]
       end.
  all: unfold now; simpl; repeat split; try congruence.
  all: intros t Ht; rewrite Ht in *; simpl in *; congruence.
Qed.

(** C4.  Whenever [set] reports success, the record stored under the
    storage key has [expires] equal to the current time plus [ttl] seconds
    when the cookie of the payload carries no expiry, and equal to the
    instant of the cookie's expiry when it carries one: for a [Cookie]
    instance, the date its own [_expires] holds, which [cookie.expires]
    reads through the accessor of the prototype.  The constructor sets
    [ttl] to 1209600 unless the options give one. *)
Theorem set_stores_expiry :
  forall (rt : Runtime) (self : MongoStore) (sid : string) (ref : nat)
         (w : World),
    let w' := fst (set rt self sid ref w) in
    let cookie_expiry := cookie_expires (heap w ref) in
    In (Cb None None) (reported w w') ->
    (exists d,
       lookup (computeStorageId self sid) w' = Some d
       /\ (truthy cookie_expiry = false ->
           expires d = Some (now w + ttl (options self) * 1000))
       /\ (truthy cookie_expiry = true ->
           expires d = Some (new_Date_of rt cookie_expiry))
       /\ (forall t, cookie_expiry = VDate t -> expires d = Some t)
       /\ (forall json own t,
             opt_field "cookie" (heap w ref) = VCookie json own ->
             opt_field "_expires" (VCookie json own) = VDate t ->
             expires d = Some t))
    /\ (forall o, ttl (options (construct rt o))
                  = match o_ttl o with Some t => t | None => 1209600 end).
Proof.
  intros rt self sid ref w w' cookie_expiry. subst w' cookie_expiry.
  intros Hok. split; [|reflexivity].
  destruct (set_expiry rt self sid ref w Hok)
    as (d & Hd & Hnone & Hsome & Hdate).
  exists d. repeat split; try assumption.
  intros json own t Hcookie Hexp. apply Hdate.
  unfold cookie_expires. rewrite Hcookie. exact Hexp.
Qed.

Lemma set_stores_expiry_witness :
  In (Cb None None)
    (reported Scenario.fresh
       (fst (set Scenario.runtime Scenario.tracking "abc" 0 Scenario.fresh)))
  /\ (exists d,
        lookup "abc"
          (fst (set Scenario.runtime Scenario.tracking "abc" 0
                  Scenario.fresh))
        = Some d
        /\ expires d = Some (1000000 + 60 * 1000))
  /\ In (Cb None None)
       (reported Scenario.expiring
          (fst (set Scenario.runtime Scenario.tracking "abc" 0
                  Scenario.expiring)))
  /\ exists d,
       lookup "abc"
         (fst (set Scenario.runtime Scenario.tracking "abc" 0
                 Scenario.expiring))
       = Some d
       /\ expires d = Some 1000500.
Proof.
  split; [vm_compute; auto|]. split; [|split; [vm_compute; auto|]].
  - destruct (set_stores_expiry Scenario.runtime Scenario.tracking "abc" 0
                Scenario.fresh) as [(d & Hd & Httl & _) _].
    + vm_compute. auto.
    + exists d. split; [exact Hd | apply Httl; reflexivity].
  - destruct (set_stores_expiry Scenario.runtime Scenario.tracking "abc" 0
                Scenario.expiring) as [(d & Hd & _ & _ & _ & Hcookie) _].
    + vm_compute. auto.
    + exists d. split; [exact Hd|].
      eapply Hcookie; reflexivity.
Defined.

(** The caller's objects after [set]: the object at [ref] has lost its
    [lastModified] if tracking is on and the field was truthy; nothing
    else changed. *)
Lemma set_heap (rt : Runtime) (self : MongoStore) (sid : string) (ref : nat)
  (w : World) (r : nat) :
  heap (fst (set rt self sid ref w)) r
  = if (touchAfter (options self) >? 0)
       && truthy (opt_field "lastModified" (heap w ref))
       && Nat.eqb r ref
    then delete_field "lastModified" (heap w ref)
    else heap w r.
Proof.
  unfold set. unfold_monad. simpl.
  destruct (touchAfter (options self) >? 0); simpl.
  - destruct (truthy (opt_field "lastModified" (heap w ref))); simpl.
    + split_match; reflexivity.
    + split_match; reflexivity.
  - split_match; reflexivity.
Qed.

(** C10.  With [touchAfter > 0] and a payload whose [lastModified] passes
    the test of [set] (as every [Date] does), the caller's own object has
    lost the field when [set] is done: it is the object it was with
    [lastModified] deleted, every other field is as it was, and no other
    object of the caller changed. *)
Theorem set_deletes_lastModified_in_place :
  forall (rt : Runtime) (self : MongoStore) (sid : string) (ref : nat)
         (w : World),
    let w' := fst (set rt self sid ref w) in
    touchAfter (options self) > 0 ->
    truthy (opt_field "lastModified" (heap w ref)) = true ->
    heap w' ref = delete_field "lastModified" (heap w ref)
    /\ has_field "lastModified" (heap w' ref) = false
    /\ (forall k, k <> "lastModified" ->
                  opt_field k (heap w' ref) = opt_field k (heap w ref)
                  /\ has_field k (heap w' ref) = has_field k (heap w ref))
    /\ (forall r, r <> ref -> heap w' r = heap w r).
Proof.
  intros rt self sid ref w w' Hpos Hlm. subst w'.
  apply Z.gt_lt, Z.gtb_lt in Hpos.
  assert (Href : heap (fst (set rt self sid ref w)) ref
                 = delete_field "lastModified" (heap w ref)).
  { now rewrite set_heap, Hpos, Hlm, Nat.eqb_refl. }
  rewrite Href. repeat split.
  - apply has_field_delete_same.
  - apply opt_field_delete_other; [assumption | discriminate].
  - now apply has_field_delete_other.
  - intros r Hr. rewrite set_heap.
    apply Nat.eqb_neq in Hr. rewrite Hr.
    now rewrite andb_false_r.
Qed.

Lemma set_deletes_lastModified_in_place_witness :
  heap Scenario.fresh_modified 0%nat = Scenario.payload_modified 5
  /\ heap (fst (set Scenario.runtime Scenario.tracking "abc" 0
                  Scenario.fresh_modified)) 0%nat
     = Scenario.payload.
Proof.
  split; [reflexivity|].
  destruct (set_deletes_lastModified_in_place
              Scenario.runtime Scenario.tracking "abc" 0
              Scenario.fresh_modified)
    as [H _].
  - reflexivity.
  - reflexivity.
  - exact H.
Defined.

(** Against C9 as stated: with tracking off, [set] stores the
    [lastModified] of the payload along with the rest. *)
Lemma set_keeps_lastModified_without_tracking :
  ~ stores_no_lastModified Scenario.runtime Scenario.plain "abc" 0
      Scenario.fresh_modified.
Proof.
  intros H.
  specialize (H {| _id := "abc";
                   session := Scenario.payload_modified 5;
                   expires := Some 1060000;
                   lastModified := None |} eq_refl).
  vm_compute in H. discriminate.
Qed.

(** C9, amended.  With [touchAfter > 0], the payload [set] serializes
    carries no [lastModified] that passes its test, the field being deleted
    when it does; with [touchAfter <= 0] the payload is left as the caller
    gave it.  When [set] reports success, the payload as [set] left it is
    what was serialized, and without encryption the result is the stored
    [session]. *)
Theorem set_strips_lastModified_when_tracking :
  forall (rt : Runtime) (self : MongoStore) (sid : string) (ref : nat)
         (w : World),
    let w' := fst (set rt self sid ref w) in
    (touchAfter (options self) > 0 ->
     truthy (opt_field "lastModified" (heap w' ref)) = false
     /\ (truthy (opt_field "lastModified" (heap w ref)) = true ->
         has_field "lastModified" (heap w' ref) = false))
    /\ (touchAfter (options self) <= 0 -> heap w' ref = heap w ref)
    /\ (In (Cb None None) (reported w w') ->
        exists serialized d,
          tf_serialize (transformFunctions self) (heap w' ref) = inr serialized
          /\ lookup (computeStorageId self sid) w' = Some d
          /\ (crypto_ self = None -> session d = serialized)).
Proof.
  intros rt self sid ref w w'. subst w'.
  split; [|split].
  - intros Hpos. apply Z.gt_lt, Z.gtb_lt in Hpos.
    rewrite set_heap, Hpos, Nat.eqb_refl. simpl.
    destruct (truthy (opt_field "lastModified" (heap w ref))) eqn:Hlm; simpl.
    + rewrite opt_field_delete_same, has_field_delete_same by discriminate.
      auto.
    + split; [exact Hlm | discriminate].
  - intros Hoff. rewrite set_heap.
    destruct (touchAfter (options self) >? 0) eqn:Hpos; [|reflexivity].
    apply Z.gtb_lt in Hpos. lia.
  - rewrite set_heap, Nat.eqb_refl, andb_true_r.
    unfold reported, lookup, set. unfold_monad. simpl.
    split_match; added.
    all: try match goal with
             | H : (?r =? ?r)%nat = false |- _ =>
                 rewrite Nat.eqb_refl in H; discriminate
             end.
    all: try (intros H; simpl in H; intuition discriminate).
    all: intros _; cbn [andb].
    all: match goal with
         | H : update_first _ _ _ = Some _ |- _ =>
             destruct (update_first_some _ _ _ H) as (d & _ & H2 & _);
             eexists; eexists;
             split; [reflexivity | split; [exact H2|]]
         | H : update_first _ _ _ = None |- _ =>
             apply update_first_none in H;
             eexists; eexists;
             split; [reflexivity | split;
               [apply find_app_last; [exact H | apply String.eqb_refl]|]]
         end.
    all: simpl; congruence.
Qed.

Lemma set_strips_lastModified_when_tracking_witness :
  touchAfter (options Scenario.tracking) > 0
  /\ In (Cb None None)
       (reported Scenario.fresh_modified
          (fst (set Scenario.runtime Scenario.tracking "abc" 0
                  Scenario.fresh_modified)))
  /\ truthy (opt_field "lastModified"
               (heap (fst (set Scenario.runtime Scenario.tracking "abc" 0
                             Scenario.fresh_modified)) 0%nat)) = false
  /\ exists d,
       lookup "abc" (fst (set Scenario.runtime Scenario.tracking "abc" 0
                            Scenario.fresh_modified)) = Some d
       /\ session d = Scenario.payload.
Proof.
  destruct (set_strips_lastModified_when_tracking
              Scenario.runtime Scenario.tracking "abc" 0
              Scenario.fresh_modified)
    as (Hon & _ & Hok).
  split; [reflexivity|]. split; [vm_compute; auto|].
  split.
  - destruct Hon as [H _]; [reflexivity | exact H].
  - destruct Hok as (ser & d & Hser & Hd & Hs); [vm_compute; auto|].
    exists d. split; [exact Hd|].
    rewrite (Hs eq_refl). vm_compute in Hser.
    inversion Hser. reflexivity.
Defined.

(* ------------------------------------------------------------------ *)
(** ** [touch] *)

Lemma field_of_object (k : string) (payload v : any) :
  opt_field k payload = v -> v <> VUndefined ->
  field k payload = inr v.
Proof.
  intros H Hv. destruct payload; try (simpl in H; congruence).
  all: unfold field; now rewrite H.
Qed.

(** The skip: a payload modified less than [touchAfter] seconds ago makes
    [touch] read the clock, call back with [null], and do nothing else. *)
Lemma touch_skips (rt : Runtime) (self : MongoStore) (sid : string)
  (payload : any) (w : World) (L : Z) :
  touchAfter (options self) > 0 ->
  opt_field "lastModified" payload = VDate L ->
  0 < L ->
  now w - L < touchAfter (options self) * 1000 ->
  fst (touch rt self sid payload w)
  = with_completions (completions w ++ [Cb None None])
      (with_reads (S (reads w)) w).
Proof.
  intros HN HL Hpos Hlt.
  unfold touch. unfold_monad.
  rewrite (field_of_object _ _ HL) by discriminate. simpl.
  replace (touchAfter (options self) * 1000 >? 0) with true
    by (symmetry; apply Z.gtb_lt; lia).
  replace (L >? 0) with true by (symmetry; apply Z.gtb_lt; lia).
  apply Z.ltb_lt in Hlt. unfold now in *. cbn [andb].
  rewrite Hlt. reflexivity.
Qed.

(** Closes a branch in which an update matched a record although the key
    has none. *)
Ltac impossible_update :=
  match goal with
  | H : update_first ?k ?u ?ds = Some _, H' : find (by_id ?k) ?ds = None |- _ =>
      rewrite (proj2 (update_first_none k u ds) H') in H; discriminate
  end.

(** C6.  A [touch] that asks the collection for its update while no record
    has the storage key calls back once, with the error "Unable to find the
    session to touch", emits nothing and leaves the collection as it was;
    the [touch] that the threshold skips calls back once with [null]. *)
Theorem touch_not_found_is_an_error :
  forall (rt : Runtime) (self : MongoStore) (sid : string) (payload : any)
         (w : World),
    let w' := fst (touch rt self sid payload w) in
    (forall u,
       operational w = true ->
       lookup (computeStorageId self sid) w = None ->
       asked w w' = [UpdateOne (computeStorageId self sid) u false] ->
       reported w w'
       = [Cb (Some (Error "Unable to find the session to touch")) None]
       /\ notified w w' = []
       /\ docs w' = docs w)
    /\ (forall L,
          touchAfter (options self) > 0 ->
          opt_field "lastModified" payload = VDate L ->
          0 < L ->
          now w - L < touchAfter (options self) * 1000 ->
          reported w w' = [Cb None None]
          /\ asked w w' = []).
Proof.
  intros rt self sid payload w w'. subst w'. split.
  - intros u Hop Hnone.
    unfold reported, notified, asked, lookup in *.
    unfold touch. unfold_monad. simpl.
    split_match; added; simpl.
    all: try discriminate.
    all: try congruence.
    all: try impossible_update.
    all: intros _; repeat split; reflexivity.
  - intros L HN HL Hpos Hlt.
    unfold reported, asked.
    rewrite (touch_skips rt self sid payload w HN HL Hpos Hlt). simpl.
    now added.
Qed.

Lemma touch_not_found_is_an_error_witness :
  lookup "abc" Scenario.fresh = None
  /\ reported Scenario.fresh
       (fst (touch Scenario.runtime Scenario.tracking "abc"
               Scenario.payload Scenario.fresh))
     = [Cb (Some (Error "Unable to find the session to touch")) None]
  /\ reported Scenario.fresh
       (fst (touch Scenario.runtime Scenario.tracking "abc"
               (Scenario.payload_modified 999000) Scenario.fresh))
     = [Cb None None].
Proof.
  destruct (touch_not_found_is_an_error
              Scenario.runtime Scenario.tracking "abc" Scenario.payload
              Scenario.fresh) as [Herr _].
  destruct (touch_not_found_is_an_error
              Scenario.runtime Scenario.tracking "abc"
              (Scenario.payload_modified 999000)
              Scenario.fresh) as [_ Hskip].
  split; [reflexivity|]. split.
  - eapply Herr; reflexivity.
  - eapply (Hskip 999000); reflexivity.
Defined.


(** Against C5 as stated: a payload without [lastModified] makes [touch]
    write, but not [lastModified]: the record keeps the one it had. *)
Lemma touch_without_lastModified_keeps_stored_one :
  ~ touch_tracks_idle_time Scenario.runtime Scenario.tracking "abc"
      Scenario.payload Scenario.stored.
Proof.
  intros H.
  destruct H as [_ H]; [reflexivity|].
  destruct H as (d' & Hd' & Hm & _); [vm_compute; discriminate|].
  vm_compute in Hd'. inversion Hd'; subst d'.
  vm_compute in Hm. discriminate.
Qed.

(** C5, amended.  With [touchAfter = N > 0]:
    - a payload whose [lastModified] is a date after the epoch and less
      than [N] seconds old makes [touch] skip: nothing is asked of the
      collection, nothing changes, and the call reports success;
    - with such a date [N] seconds old or older, a [touch] that reports
      success has asked for one update, after which the stored record has
      [lastModified] equal to now and [expires] recomputed as [set] does;
    - a payload without [lastModified] is not compared with the threshold:
      a [touch] that reports success has recomputed [expires] likewise and
      left the stored [lastModified] as it was.
    The recomputed [expires] is the cookie's expiry when it carries one
    (for a [Cookie] instance, the date its own [_expires] holds), the time
    [touch] then reads plus [ttl] seconds otherwise. *)
Theorem touch_tracks_idle_time_of_dated_payload :
  forall (rt : Runtime) (self : MongoStore) (sid : string) (payload : any)
         (w : World),
    let k := computeStorageId self sid in
    let w' := fst (touch rt self sid payload w) in
    let e := recomputed_expires rt self payload (clock w (S (reads w))) in
    touchAfter (options self) > 0 ->
    (forall L,
       opt_field "lastModified" payload = VDate L ->
       0 < L ->
       (now w - L < touchAfter (options self) * 1000 ->
        asked w w' = [] /\ docs w' = docs w /\ notified w w' = []
        /\ reported w w' = [Cb None None])
       /\ (now w - L >= touchAfter (options self) * 1000 ->
           In (Cb None None) (reported w w') ->
           exists u d',
             asked w w' = [UpdateOne k u false]
             /\ lookup k w' = Some d'
             /\ lastModified d' = Some (now w)
             /\ expires d' = Some e))
    /\ (truthy (opt_field "lastModified" payload) = false ->
        In (Cb None None) (reported w w') ->
        exists u d d',
          asked w w' = [UpdateOne k u false]
          /\ lookup k w = Some d
          /\ lookup k w' = Some d'
          /\ lastModified d' = lastModified d
          /\ expires d' = Some e)
    /\ (truthy (cookie_expires payload) = false ->
        e = clock w (S (reads w)) + ttl (options self) * 1000)
    /\ (forall t, cookie_expires payload = VDate t -> e = t)
    /\ (forall json own t,
          opt_field "cookie" payload = VCookie json own ->
          opt_field "_expires" (VCookie json own) = VDate t ->
          e = t).
Proof.
  intros rt self sid payload w k w' e HN. subst k w' e.
  split; [|split; [|split; [|split]]].
  3:{ intros Hnone. unfold recomputed_expires. now rewrite Hnone. }
  3:{ intros t Ht. unfold recomputed_expires. now rewrite Ht. }
  3:{ intros json own t Hcookie Hexp.
      unfold recomputed_expires, cookie_expires.
      rewrite Hcookie.
      change (opt_field "expires" (VCookie json own))
        with (opt_field "_expires" (VCookie json own)).
      now rewrite Hexp. }
  - intros L HL Hpos. split.
    + intros Hlt. unfold asked, notified, reported.
      rewrite (touch_skips rt self sid payload w HN HL Hpos Hlt). simpl.
      now added.
    + intros Hge. unfold reported, asked, lookup, recomputed_expires.
      unfold touch. unfold_monad.
      rewrite (field_of_object _ _ HL) by discriminate. simpl.
      replace (touchAfter (options self) * 1000 >? 0) with true
        by (symmetry; apply Z.gtb_lt; lia).
      replace (L >? 0) with true by (symmetry; apply Z.gtb_lt; lia).
      replace (now w - L <? touchAfter (options self) * 1000) with false
        by (symmetry; apply Z.ltb_ge; lia).
      cbn [andb].
      split_match; added.
      all: try (intros H; simpl in H; intuition discriminate).
      all: intros _.
      all: match goal with
           | H : update_first _ _ _ = Some _ |- _ =>
               destruct (update_first_some _ _ _ H) as (d & _ & H2 & _);
               eexists; eexists; split; [reflexivity|];
               split; [exact H2 | split; reflexivity]
           end.
  - intros Hlm. unfold reported, asked, lookup, recomputed_expires.
    unfold touch. unfold_monad. simpl.
    destruct (field "lastModified" payload) as [err|lm] eqn:Hf; simpl.
    { added. intros H. simpl in H. intuition discriminate. }
    assert (lm = opt_field "lastModified" payload) as ->.
    { destruct payload; simpl in *; congruence. }
    rewrite Hlm. simpl. rewrite andb_false_r. simpl.
    split_match; added.
    all: try (intros H; simpl in H; intuition discriminate).
    all: intros _.
    all: match goal with
         | H : update_first _ _ _ = Some _ |- _ =>
             destruct (update_first_some _ _ _ H) as (d & H1 & H2 & _);
             eexists; exists d; eexists; split; [reflexivity|];
             split; [exact H1 | split; [exact H2 | split; reflexivity]]
         end.
Qed.

Lemma touch_tracks_idle_time_of_dated_payload_witness :
  touchAfter (options Scenario.tracking) > 0
  /\ In (Cb None None)
       (reported Scenario.stored
          (fst (touch Scenario.runtime Scenario.tracking "abc"
                  (Scenario.payload_modified 900000) Scenario.stored)))
  /\ (exists d',
       lookup "abc"
         (fst (touch Scenario.runtime Scenario.tracking "abc"
                 (Scenario.payload_modified 900000) Scenario.stored))
       = Some d'
       /\ lastModified d' = Some 1000000
       /\ expires d' = Some (1000001 + 60 * 1000))
  /\ In (Cb None None)
       (reported Scenario.expiring_stored
          (fst (touch Scenario.runtime Scenario.tracking "abc"
                  (Scenario.expiring_modified 900000)
                  Scenario.expiring_stored)))
  /\ exists d',
       lookup "abc"
         (fst (touch Scenario.runtime Scenario.tracking "abc"
                 (Scenario.expiring_modified 900000)
                 Scenario.expiring_stored))
       = Some d'
       /\ lastModified d' = Some 1000000
       /\ expires d' = Some 1000500.
Proof.
  split; [reflexivity|]. split; [vm_compute; auto|].
  split; [|split; [vm_compute; auto|]].
  - destruct (touch_tracks_idle_time_of_dated_payload
                Scenario.runtime Scenario.tracking "abc"
                (Scenario.payload_modified 900000)
                Scenario.stored) as [Hdated _]; [reflexivity|].
    destruct (Hdated 900000) as [_ Hold]; [reflexivity | reflexivity |].
    destruct Hold as (u & d' & _ & Hd' & Hm & He).
    + vm_compute. discriminate.
    + vm_compute. auto.
    + exists d'. split; [exact Hd'|]. split; [exact Hm | exact He].
  - destruct (touch_tracks_idle_time_of_dated_payload
                Scenario.runtime Scenario.tracking "abc"
                (Scenario.expiring_modified 900000)
                Scenario.expiring_stored)
      as (Hdated & _ & _ & _ & Hcookie); [reflexivity|].
    destruct (Hdated 900000) as [_ Hold]; [reflexivity | reflexivity |].
    destruct Hold as (u & d' & _ & Hd' & Hm & He).
    + vm_compute. discriminate.
    + vm_compute. auto.
    + exists d'. split; [exact Hd'|]. split; [exact Hm|].
      rewrite He. apply f_equal. eapply Hcookie; reflexivity.
Defined.

(** The same on a session whose cookie is a [Cookie] instance that expires
    at 1000500: the record is rewritten to expire then. *)
Example touch_of_a_session_with_an_expiring_cookie :
  reported Scenario.expiring_stored
    (fst (touch Scenario.runtime Scenario.tracking "abc"
            (Scenario.expiring_modified 900000) Scenario.expiring_stored))
  = [Cb None None]
  /\ lookup "abc"
       (fst (touch Scenario.runtime Scenario.tracking "abc"
               (Scenario.expiring_modified 900000) Scenario.expiring_stored))
     = Some {| _id := "abc";
               session :=
                 VObj None
                   [("cookie",
                     VObj None [("originalMaxAge", VNum 500);
                                ("expires", VDate 1000500);
                                ("httpOnly", VBool true);
                                ("path", VStr "/")]);
                    ("user", VStr "u1");
                    ("lastModified", VDate 900000)];
               expires := Some 1000500;
               lastModified := Some 1000000 |}.
Proof. split; reflexivity. Qed.

(* ------------------------------------------------------------------ *)
(** ** The transforms *)

Lemma assoc_set_fresh (k : string) (v : any) (fs : list (string * any)) :
  ~ In k (map fst fs) -> assoc_set k v fs = fs ++ [(k, v)].
Proof.
  induction fs as [|[k0 v0] fs IH]; simpl; intros Hk; [reflexivity|].
  destruct (k0 =? k)%string eqn:E.
  - apply String.eqb_eq in E. tauto.
  - rewrite IH by tauto. reflexivity.
Qed.

Lemma assoc_in (k : string) (v : any) (fs : list (string * any)) :
  NoDup (map fst fs) -> In (k, v) fs -> assoc k fs = Some v.
Proof.
  induction fs as [|[k0 v0] fs IH]; simpl; intros Hnd Hin; [tauto|].
  inversion Hnd as [|? ? Hk0 Hnd']; subst.
  destruct Hin as [Heq | Hin].
  - inversion Heq; subst. now rewrite String.eqb_refl.
  - destruct (k0 =? k)%string eqn:E; [|auto].
    apply String.eqb_eq in E. subst k0.
    exfalso. apply Hk0. apply (in_map fst) in Hin. exact Hin.
Qed.

(** [for (prop in session)] over properties other than [cookie] appends
    them, with their values, to what was copied before. *)
Lemma for_in_copies (session : any) (fs acc : list (string * any)) :
  (forall k v, In (k, v) fs -> opt_field k session = v) ->
  NoDup (map fst acc ++ map fst fs) ->
  ~ In "cookie" (map fst fs) ->
  for_in session (map fst fs) acc = inr (acc ++ fs).
Proof.
  revert acc.
  induction fs as [|[k v] fs IH]; intros acc Hval Hnd Hcookie; simpl.
  - now rewrite app_nil_r.
  - unfold copy_prop.
    destruct (k =? "cookie")%string eqn:E.
    { apply String.eqb_eq in E. simpl in Hcookie. tauto. }
    rewrite (Hval k v) by (left; reflexivity).
    rewrite assoc_set_fresh.
    2:{ simpl in Hnd. apply NoDup_remove_2 in Hnd.
        intros Hin. apply Hnd. apply in_or_app. now left. }
    rewrite IH.
    + now rewrite <- app_assoc.
    + intros k' v' Hin. apply Hval. now right.
    + rewrite map_app, <- app_assoc. exact Hnd.
    + simpl in Hcookie. tauto.
Qed.

(** On an object without a [cookie], [defaultSerializeFunction] is a copy
    of the own properties. *)
Lemma defaultSerializeFunction_copies (j : option any)
  (fs : list (string * any)) :
  NoDup (map fst fs) ->
  ~ In "cookie" (map fst fs) ->
  defaultSerializeFunction (VObj j fs) = inr (VObj None fs).
Proof.
  intros Hnd Hcookie. unfold defaultSerializeFunction. simpl.
  rewrite for_in_copies; auto.
  intros k v Hin. simpl. now rewrite (assoc_in _ _ _ Hnd Hin).
Qed.

(** Against C8 as stated: a session with a [Cookie] instance is not
    serialized to itself when only [unserialize] is given. *)
Lemma missing_serialize_is_not_identity :
  ~ missing_transform_is_identity Scenario.runtime
      (concrete (Scenario.only_unserialize unit_)).
Proof.
  intros [_ H].
  destruct (H unit_ eq_refl eq_refl) as [_ Hid].
  specialize (Hid Scenario.live_session).
  vm_compute in Hid. discriminate.
Qed.

(** C8, amended.  When only [serialize] is given it is used, and
    [unserialize] is the identity; when only [unserialize] is given it is
    used, and [serialize] is [defaultSerializeFunction], which puts the
    [toJSON()] of a cookie in the place of the cookie. *)
Theorem missing_transform_defaults :
  forall (rt : Runtime) (options : ConcretConnectMongoOptions),
    let tf := computeTransformFunctions rt options in
    (forall s, serialize options = Some s -> unserialize options = None ->
               tf_serialize tf = s
               /\ tf_unserialize tf = unit_
               /\ forall x, tf_unserialize tf x = inr x)
    /\ (forall u, serialize options = None -> unserialize options = Some u ->
                  tf_unserialize tf = u
                  /\ tf_serialize tf = defaultSerializeFunction
                  /\ forall json own,
                       tf_serialize tf
                         (VObj None [("cookie", VObj (Some json) own)])
                       = inr (VObj None [("cookie", json)])).
Proof.
  intros rt options tf. subst tf. unfold computeTransformFunctions. split.
  - intros s Hs Hu. rewrite Hs, Hu. simpl. auto.
  - intros u Hs Hu. rewrite Hs, Hu. simpl. auto.
Qed.

Lemma missing_transform_defaults_witness :
  serialize (concrete (Scenario.only_unserialize unit_)) = None
  /\ unserialize (concrete (Scenario.only_unserialize unit_)) = Some unit_
  /\ tf_unserialize
       (computeTransformFunctions Scenario.runtime
          (concrete (Scenario.only_unserialize unit_))) = unit_
  /\ tf_serialize
       (computeTransformFunctions Scenario.runtime
          (concrete (Scenario.only_unserialize unit_)))
     = defaultSerializeFunction.
Proof.
  destruct (missing_transform_defaults Scenario.runtime
              (concrete (Scenario.only_unserialize unit_))) as [_ H].
  destruct (H unit_ eq_refl eq_refl) as (H1 & H2 & _).
  split; [reflexivity|]. split; [reflexivity|].
  split; [exact H1 | exact H2].
Defined.

(* ------------------------------------------------------------------ *)
(** ** [get] *)

(** What [get] calls back with when no live record has the storage key:
    [null] without tracking, a [TypeError] with it. *)
Lemma get_absent (rt : Runtime) (self : MongoStore) (sid : string)
  (w : World) :
  connected w = true ->
  operational w = true ->
  find (matches (F_and [F_id (computeStorageId self sid);
                        not_expired (now w)])) (docs w) = None ->
  reported w (fst (get rt self sid w))
  = if touchAfter (options self) >? 0
    then [Cb (Some (TypeError "Cannot read property 'lastModified' of null"))
            None]
    else [Cb None (Some VNull)].
Proof.
  intros Hc Ho Hnone.
  unfold reported, get. unfold_monad. simpl.
  rewrite Hc. simpl. rewrite Ho. simpl. unfold now in *. rewrite Hnone.
  destruct (crypto_ self); simpl.
  all: destruct (touchAfter (options self) >? 0); simpl; now added.
Qed.

(** What [get] calls back with when decryption of the record found fails:
    first the error, then whatever the rest of the method arrives at. *)
Lemma get_decrypt_failure (rt : Runtime) (self : MongoStore) (sid : string)
  (w : World) (kr : Kruptein) (doc : InternalSessionType) (u text : any)
  (msg : string) :
  crypto_ self = Some kr ->
  connected w = true ->
  operational w = true ->
  find (matches (F_and [F_id (computeStorageId self sid);
                        not_expired (now w)])) (docs w) = Some doc ->
  tf_unserialize (transformFunctions self) (session doc) = inr u ->
  JSON_stringify rt u = inr text ->
  k_get kr (secret (crypto (options self))) text = inl msg ->
  exists second,
    reported w (fst (get rt self sid w)) = [Cb (Some (Error msg)) None; second]
    /\ (touchAfter (options self) <= 0 -> second = Cb None (Some u)).
Proof.
  intros Hk Hc Ho Hdoc Hu Htext Hget.
  unfold reported, get. unfold_monad. simpl.
  rewrite Hc. simpl. rewrite Ho. simpl. unfold now in *. rewrite Hdoc, Hk.
  rewrite Hu, Htext, Hget. simpl. rewrite Hu.
  destruct (touchAfter (options self) >? 0) eqn:Hta.
  - destruct (lastModified doc) as [t|].
    + destruct (set_field "lastModified" (VDate t) u); simpl; added;
        eexists; (split; [reflexivity|]);
        apply Z.gtb_lt in Hta; lia.
    + simpl. added. eexists. split; [reflexivity|].
      apply Z.gtb_lt in Hta. lia.
  - simpl. added. eexists. split; reflexivity.
Qed.

(** C2, at a failing input: encryption is on, the record is found and its
    decryption fails; [get] calls back twice, with the error and then with
    [null] and the undecrypted payload as the session. *)
Theorem get_decrypt_failure_calls_back_twice :
  is_some (crypto_ Scenario.encrypting) = true
  /\ reported Scenario.encrypted
       (fst (get Scenario.runtime Scenario.encrypting "abc"
               Scenario.encrypted))
     = [Cb (Some (Error "Encrypted session was tampered with!")) None;
        Cb None (Some Scenario.ciphertext)].
Proof. split; reflexivity. Qed.

(** C3, at a failing input: tracking is on ([touchAfter = 30]) and the
    collection is empty, or holds the record expired; [get] calls back
    with a [TypeError], where without tracking it calls back with [null]
    and a [null] session. *)
Theorem get_absent_with_tracking_is_an_error :
  reported Scenario.fresh
    (fst (get Scenario.runtime Scenario.tracking "abc" Scenario.fresh))
  = [Cb (Some (TypeError "Cannot read property 'lastModified' of null")) None]
  /\ reported Scenario.lapsed
       (fst (get Scenario.runtime Scenario.tracking "abc" Scenario.lapsed))
     = [Cb (Some (TypeError "Cannot read property 'lastModified' of null"))
          None]
  /\ reported Scenario.fresh
       (fst (get Scenario.runtime Scenario.plain "abc" Scenario.fresh))
     = [Cb None (Some VNull)].
Proof. repeat split; reflexivity. Qed.

(* ------------------------------------------------------------------ *)
(** ** More on the collection *)

Lemma any_eqb_refl : forall a : any, any_eqb a a = true.
Proof.
  fix IH 1. intros [| | b | n | s | ms | j fs | j fs]; simpl; auto.
  - apply Bool.eqb_reflx.
  - apply Z.eqb_refl.
  - apply String.eqb_refl.
  - apply Z.eqb_refl.
  - apply andb_true_intro. split.
    + destruct j as [x|]; [apply IH | reflexivity].
    + revert fs. fix IHl 1. intros [|[k v] fs]; [reflexivity|].
      rewrite String.eqb_refl, IH, IHl. reflexivity.
  - apply andb_true_intro. split.
    + apply IH.
    + revert fs. fix IHl 1. intros [|[k v] fs]; [reflexivity|].
      rewrite String.eqb_refl, IH, IHl. reflexivity.
Qed.

Lemma doc_eqb_refl (d : InternalSessionType) : doc_eqb d d = true.
Proof.
  unfold doc_eqb, optZ_eqb.
  rewrite String.eqb_refl, any_eqb_refl.
  destruct (expires d), (lastModified d); simpl; rewrite ?Z.eqb_refl; auto.
Qed.

Lemma update_first_ids (k : string) (u : SetFields)
  (ds ds' : list InternalSessionType) (changed : bool) :
  update_first k u ds = Some (ds', changed) ->
  map _id ds' = map _id ds.
Proof.
  revert ds' changed.
  induction ds as [|d ds IH]; intros ds' changed H; simpl in H; [discriminate|].
  destruct (_id d =? k)%string.
  - inversion H; subst. reflexivity.
  - destruct (update_first k u ds) as [[ds'' c]|]; [|discriminate].
    inversion H; subst. simpl. f_equal. eapply IH. reflexivity.
Qed.

Lemma update_first_other (k k' : string) (u : SetFields)
  (ds ds' : list InternalSessionType) (changed : bool) :
  k' <> k ->
  update_first k u ds = Some (ds', changed) ->
  find (by_id k') ds' = find (by_id k') ds.
Proof.
  intros Hk. revert ds' changed.
  induction ds as [|d ds IH]; intros ds' changed H; simpl in H; [discriminate|].
  destruct (_id d =? k)%string eqn:E.
  - inversion H; subst. simpl. unfold by_id at 1 3. simpl.
    apply String.eqb_eq in E. rewrite E.
    destruct (k =? k')%string eqn:E'; [|reflexivity].
    apply String.eqb_eq in E'. congruence.
  - destruct (update_first k u ds) as [[ds'' c]|]; [|discriminate].
    inversion H; subst. simpl.
    destruct (by_id k' d); [reflexivity|]. eapply IH. reflexivity.
Qed.

Lemma find_app_other {A : Type} (p : A -> bool) (l : list A) (x : A) :
  p x = false -> find p (l ++ [x]) = find p l.
Proof.
  intros Hx. induction l as [|y l IH]; simpl.
  - now rewrite Hx.
  - destruct (p y); auto.
Qed.

Lemma find_by_id_none (k : string) (ds : list InternalSessionType) :
  find (by_id k) ds = None <-> ~ In k (map _id ds).
Proof.
  unfold by_id. induction ds as [|d ds IH]; simpl; [tauto|].
  destruct (_id d =? k)%string eqn:E.
  - apply String.eqb_eq in E. split; [discriminate | tauto].
  - apply String.eqb_neq in E. rewrite IH. tauto.
Qed.

Lemma upsert_other (k k' : string) (u : SetFields)
  (ds : list InternalSessionType) :
  k' <> k -> find (by_id k') (upsert k u ds) = find (by_id k') ds.
Proof.
  intros Hk. unfold upsert.
  destruct (update_first k u ds) as [[ds' c]|] eqn:Hu.
  - eapply update_first_other; eauto.
  - apply find_app_other. unfold by_id; simpl.
    apply String.eqb_neq. congruence.
Qed.

Lemma upsert_unique (k : string) (u : SetFields)
  (ds : list InternalSessionType) :
  NoDup (map _id ds) -> NoDup (map _id (upsert k u ds)).
Proof.
  intros Hnd. unfold upsert.
  destruct (update_first k u ds) as [[ds' c]|] eqn:Hu.
  - now rewrite (update_first_ids _ _ _ Hu).
  - rewrite map_app. simpl.
    apply update_first_none, find_by_id_none in Hu.
    apply NoDup_app; [exact Hnd | repeat constructor; simpl; tauto |].
    intros x Hx [Hx'|[]]. congruence.
Qed.

Lemma upsert_lookup (k : string) (u : SetFields)
  (ds : list InternalSessionType) :
  find (by_id k) (upsert k u ds)
  = Some (match find (by_id k) ds with
          | Some d => apply_set u d
          | None => upserted k u
          end).
Proof.
  unfold upsert.
  destruct (update_first k u ds) as [[ds' c]|] eqn:Hu.
  - destruct (update_first_some _ _ _ Hu) as (d & H1 & H2 & _).
    now rewrite H1, H2.
  - apply update_first_none in Hu. rewrite Hu.
    apply find_app_last; [exact Hu|]. apply String.eqb_refl.
Qed.

(* ------------------------------------------------------------------ *)
(** ** More on [set] *)

(** A [set] whose payload serializes, on a collection that is reached and
    works: one upsert of the fields [set_assigns] gives, [create] or
    [update] by whether the key had a record, then [set]; the completions
    are [null] alone, or the encryption error and then [null]. *)
Lemma set_runs (rt : Runtime) (self : MongoStore) (sid : string) (ref : nat)
  (w : World) (serialized : any) :
  connected w = true ->
  operational w = true ->
  tf_serialize (transformFunctions self)
    (heap (fst (set rt self sid ref w)) ref) = inr serialized ->
  docs (fst (set rt self sid ref w))
  = upsert (computeStorageId self sid)
      (set_assigns rt self ref w serialized) (docs w)
  /\ asked w (fst (set rt self sid ref w))
     = [UpdateOne (computeStorageId self sid)
          (set_assigns rt self ref w serialized) true]
  /\ notified w (fst (set rt self sid ref w))
     = [if is_some (lookup (computeStorageId self sid) w)
        then EvUpdate sid else EvCreate sid;
        EvSet sid]
  /\ reported w (fst (set rt self sid ref w))
     = match crypto_ self with
       | Some kr =>
           match k_set kr (secret (crypto (options self))) serialized with
           | inl msg => [Cb (Some (Error msg)) None; Cb None None]
           | inr _ => [Cb None None]
           end
       | None => [Cb None None]
       end.
Proof.
  intros Hc Ho. rewrite set_heap, Nat.eqb_refl, andb_true_r.
  unfold asked, notified, reported, lookup, upsert, set_assigns,
    stored_session, recomputed_expires, now.
  unfold set. unfold_monad. unfold set_fields, with_session, now. simpl.
  split_match; added.
  all: try match goal with
           | H : (?r =? ?r)%nat = false |- _ =>
               rewrite Nat.eqb_refl in H; discriminate
           end.
  all: rewrite ?cookie_expires_delete in *.
  all: try congruence.
  all: intros Hser; inversion Hser; subst.
  all: try (repeat split; congruence).
  all: match goal with
       | H : update_first _ _ _ = Some _, H' : is_some (find _ _) = false
         |- _ =>
           destruct (update_first_some _ _ _ H) as (? & Hf & _);
           rewrite Hf in H'; discriminate
       | H : update_first _ _ _ = None, H' : is_some (find _ _) = true
         |- _ =>
           apply update_first_none in H; rewrite H in H'; discriminate
       end.
Qed.


(** A [set] that reports success reached a working collection with a
    payload that serialized. *)
Lemma set_success (rt : Runtime) (self : MongoStore) (sid : string)
  (ref : nat) (w : World) :
  In (Cb None None) (reported w (fst (set rt self sid ref w))) ->
  connected w = true
  /\ operational w = true
  /\ exists serialized,
       tf_serialize (transformFunctions self)
         (heap (fst (set rt self sid ref w)) ref) = inr serialized.
Proof.
  rewrite set_heap, Nat.eqb_refl, andb_true_r.
  unfold reported, set. unfold_monad. simpl.
  split_match; added.
  all: try match goal with
           | H : (?r =? ?r)%nat = false |- _ =>
               rewrite Nat.eqb_refl in H; discriminate
           end.
  all: try (intros H; simpl in H; intuition discriminate).
  all: intros _; repeat split; eauto.
Qed.

(** Whatever happens, [set] leaves the collection as it was or as an
    upsert under the storage key makes it. *)
Lemma set_docs (rt : Runtime) (self : MongoStore) (sid : string) (ref : nat)
  (w : World) :
  docs (fst (set rt self sid ref w)) = docs w
  \/ exists u, docs (fst (set rt self sid ref w))
               = upsert (computeStorageId self sid) u (docs w).
Proof.
  unfold upsert, set. unfold_monad. unfold set_fields, with_session. simpl.
  split_match; auto.
  all: right; eexists;
    match goal with
    | H : update_first _ ?u _ = _ |- _ => instantiate (1 := u); rewrite H
    end; reflexivity.
Qed.

(** Whatever happens, [touch] leaves the collection as it was or updates
    the record the storage key has. *)
Lemma touch_docs (rt : Runtime) (self : MongoStore) (sid : string)
  (payload : any) (w : World) :
  docs (fst (touch rt self sid payload w)) = docs w
  \/ (lookup (computeStorageId self sid) w <> None
      /\ exists u, docs (fst (touch rt self sid payload w))
                   = upsert (computeStorageId self sid) u (docs w)).
Proof.
  unfold lookup, upsert, touch. unfold_monad. simpl.
  split_match; auto.
  all: right;
    match goal with
    | H : update_first _ ?u _ = Some _ |- _ =>
        destruct (update_first_some _ _ _ H) as (? & Hf & _);
        split; [congruence|]; exists u; rewrite H; reflexivity
    end.
Qed.

(* ------------------------------------------------------------------ *)
(** ** [destroy], [length] and [clear] *)

Ltac unfold_promise :=
  cbv [then_ catch_ within request emit_destroy deleteOne countDocuments
       drop];
  unfold_monad.

Lemma delete_first_lookup (k : string) (ds : list InternalSessionType) :
  NoDup (map _id ds) -> find (by_id k) (delete_first k ds) = None.
Proof.
  induction ds as [|d ds IH]; simpl; intros Hnd; [reflexivity|].
  inversion Hnd as [|? ? Hd Hnd']; subst.
  destruct (_id d =? k)%string eqn:E.
  - apply String.eqb_eq in E. subst k. now apply find_by_id_none.
  - simpl. unfold by_id at 1. rewrite E. auto.
Qed.

Lemma delete_first_other (k k' : string) (ds : list InternalSessionType) :
  k' <> k -> find (by_id k') (delete_first k ds) = find (by_id k') ds.
Proof.
  intros Hk. induction ds as [|d ds IH]; simpl; [reflexivity|].
  destruct (_id d =? k)%string eqn:E.
  - apply String.eqb_eq in E. unfold by_id at 2.
    destruct (_id d =? k')%string eqn:E'; [|reflexivity].
    apply String.eqb_eq in E'. congruence.
  - simpl. destruct (by_id k' d); auto.
Qed.

Lemma delete_first_absent (k : string) (ds : list InternalSessionType) :
  find (by_id k) ds = None -> delete_first k ds = ds.
Proof.
  unfold by_id. induction ds as [|d ds IH]; simpl; [reflexivity|].
  destruct (_id d =? k)%string; [discriminate|].
  intros H. now rewrite IH.
Qed.

Lemma delete_first_incl (k : string) (ds : list InternalSessionType) :
  incl (delete_first k ds) ds.
Proof.
  induction ds as [|d ds IH]; simpl; [apply incl_refl|].
  destruct (_id d =? k)%string.
  - apply incl_tl, incl_refl.
  - apply incl_cons; [now left | now apply incl_tl].
Qed.

Lemma delete_first_unique (k : string) (ds : list InternalSessionType) :
  NoDup (map _id ds) -> NoDup (map _id (delete_first k ds)).
Proof.
  induction ds as [|d ds IH]; simpl; intros Hnd; [constructor|].
  inversion Hnd as [|? ? Hd Hnd']; subst.
  destruct (_id d =? k)%string; [exact Hnd'|].
  simpl. constructor; [|auto].
  intros Hin. apply Hd.
  apply in_map_iff in Hin. destruct Hin as (x & Hx & Hin).
  apply in_map_iff. exists x. split; [exact Hx|].
  eapply delete_first_incl; eauto.
Qed.

(** [destroy] on a collection that is reached and works. *)
Lemma destroy_runs (self : MongoStore) (sid : string) (w : World)
  (b : Beyond) :
  connected w = true ->
  operational w = true ->
  fst (destroy self sid (w, b))
  = (with_completions (completions w ++ [Cb None None])
       (with_docs (delete_first (computeStorageId self sid) (docs w)) w),
     {| destroyed := destroyed b ++ [sid];
        requests := requests b ++ [DeleteOne (computeStorageId self sid)] |}).
Proof.
  intros Hc Ho. unfold destroy. unfold_promise. simpl.
  rewrite Hc. simpl. rewrite Ho. reflexivity.
Qed.

Lemma length_runs (w : World) (b : Beyond) :
  connected w = true ->
  operational w = true ->
  fst (length (w, b))
  = (with_completions
       (completions w
        ++ [Cb None (Some (VNum (Z.of_nat (List.length (docs w)))))]) w,
     {| destroyed := destroyed b;
        requests := requests b ++ [CountDocuments] |}).
Proof.
  intros Hc Ho. unfold length. unfold_promise. simpl.
  rewrite Hc. simpl. rewrite Ho. reflexivity.
Qed.

Lemma clear_runs (w : World) (b : Beyond) :
  connected w = true ->
  operational w = true ->
  fst (clear (w, b))
  = (with_completions (completions w ++ [Cb None None]) (with_docs [] w),
     {| destroyed := destroyed b; requests := requests b ++ [Drop] |}).
Proof.
  intros Hc Ho. unfold clear. unfold_promise. simpl.
  rewrite Hc. simpl. rewrite Ho. reflexivity.
Qed.

Lemma find_live (k : string) (t : Z) (ds : list InternalSessionType)
  (d : InternalSessionType) :
  find (by_id k) ds = Some d ->
  live t d = true ->
  find (matches (F_and [F_id k; not_expired t])) ds = Some d.
Proof.
  unfold by_id. induction ds as [|x ds IH]; simpl; [discriminate|].
  intros Hf Hl. rewrite matches_get_query.
  destruct (_id x =? k)%string; simpl.
  - inversion Hf; subst. now rewrite Hl.
  - auto.
Qed.

Lemma find_absent (k : string) (t : Z) (ds : list InternalSessionType) :
  find (by_id k) ds = None ->
  find (matches (F_and [F_id k; not_expired t])) ds = None.
Proof.
  unfold by_id. induction ds as [|x ds IH]; simpl; [reflexivity|].
  rewrite matches_get_query.
  destruct (_id x =? k)%string; simpl; [discriminate | auto].
Qed.

(** X1.  On a collection that is reached, works and holds at most one
    record per key, [destroy] removes the record of the session, leaves
    the records of other keys, emits [destroy] and calls back with [null];
    when the session has no record it does the same and the collection
    stays as it was. *)
Theorem destroy_removes_the_record :
  forall (self : MongoStore) (sid : string) (w : World) (b : Beyond),
    let k := computeStorageId self sid in
    let after := fst (destroy self sid (w, b)) in
    connected w = true ->
    operational w = true ->
    unique_ids w ->
    lookup k (fst after) = None
    /\ (forall k', k' <> k -> lookup k' (fst after) = lookup k' w)
    /\ (lookup k w = None -> docs (fst after) = docs w)
    /\ reported w (fst after) = [Cb None None]
    /\ destroyed (snd after) = destroyed b ++ [sid]
    /\ notified w (fst after) = [].
Proof.
  intros self sid w b k after Hc Ho Hu. subst k after.
  rewrite destroy_runs by assumption.
  unfold lookup, reported, notified; simpl. added.
  repeat split.
  - now apply delete_first_lookup.
  - intros k' Hk'. now apply delete_first_other.
  - apply delete_first_absent.
Qed.

Lemma destroy_removes_the_record_witness :
  unique_ids Scenario.stored
  /\ lookup "abc" Scenario.stored <> None
  /\ lookup "abc"
       (fst (fst (destroy Scenario.plain "abc" (beyond Scenario.stored))))
     = None
  /\ reported Scenario.stored
       (fst (fst (destroy Scenario.plain "abc" (beyond Scenario.stored))))
     = [Cb None None].
Proof.
  assert (Hu : unique_ids Scenario.stored).
  { unfold unique_ids. simpl. repeat constructor. simpl. tauto. }
  destruct (@destroy_removes_the_record Scenario.plain "abc"
              Scenario.stored More.nothing
              eq_refl eq_refl Hu) as (H1 & _ & _ & H4 & _).
  split; [exact Hu|]. split; [vm_compute; discriminate|].
  split; [exact H1 | exact H4].
Defined.

(** X2.  Without idle-touch tracking, a [get] that follows a [destroy] of
    the same session, both on a collection that is reached and works,
    calls back with [null] and a [null] session. *)
Theorem destroy_then_get_is_null :
  forall (rt : Runtime) (self : MongoStore) (sid : string) (w : World)
         (b : Beyond),
    let w1 := fst (fst (destroy self sid (w, b))) in
    connected w = true ->
    operational w = true ->
    unique_ids w ->
    touchAfter (options self) <= 0 ->
    reported w1 (fst (get rt self sid w1)) = [Cb None (Some VNull)].
Proof.
  intros rt self sid w b w1 Hc Ho Hu Hoff. subst w1.
  rewrite destroy_runs by assumption. cbn [fst].
  rewrite get_absent.
  - destruct (touchAfter (options self) >? 0) eqn:E; [|reflexivity].
    apply Z.gtb_lt in E. lia.
  - exact Hc.
  - exact Ho.
  - apply find_absent. simpl. now apply delete_first_lookup.
Qed.

Lemma destroy_then_get_is_null_witness :
  reported
    (fst (fst (destroy Scenario.plain "abc" (beyond Scenario.stored))))
    (fst (get Scenario.runtime Scenario.plain "abc"
            (fst (fst (destroy Scenario.plain "abc"
                         (beyond Scenario.stored))))))
  = [Cb None (Some VNull)].
Proof.
  apply (@destroy_then_get_is_null Scenario.runtime Scenario.plain "abc"
           Scenario.stored More.nothing).
  - reflexivity.
  - reflexivity.
  - unfold unique_ids. simpl. repeat constructor. simpl. tauto.
  - vm_compute. discriminate.
Defined.

Lemma filter_length_lt {A : Type} (p : A -> bool) (l : list A) (x : A) :
  In x l -> p x = false ->
  (List.length (filter p l) < List.length l)%nat.
Proof.
  induction l as [|y l IH]; simpl; [tauto|].
  intros [Heq | Hin] Hx.
  - subst y. rewrite Hx.
    pose proof (filter_length_le p l). lia.
  - specialize (IH Hin Hx). destruct (p y); simpl; lia.
Qed.

(** X3.  On a collection that is reached and works, [length] calls back
    with the number of all stored records and changes nothing: records
    that have expired and are not yet reclaimed are counted, so the count
    exceeds the number of live records whenever one has expired. *)
Theorem length_counts_expired_records :
  forall (w : World) (b : Beyond),
    let after := fst (length (w, b)) in
    connected w = true ->
    operational w = true ->
    reported w (fst after)
    = [Cb None (Some (VNum (Z.of_nat (List.length (docs w)))))]
    /\ docs (fst after) = docs w
    /\ (List.length (docs (purge w)) <= List.length (docs w))%nat
    /\ (forall d, In d (docs w) -> live (now w) d = false ->
                  (List.length (docs (purge w)) < List.length (docs w))%nat).
Proof.
  intros w b after Hc Ho. subst after.
  rewrite length_runs by assumption. unfold reported. simpl. added.
  repeat split.
  - apply filter_length_le.
  - intros d Hd Hl. eapply filter_length_lt; eauto.
Qed.

Lemma length_counts_expired_records_witness :
  reported Scenario.lapsed (fst (fst (length (beyond Scenario.lapsed))))
  = [Cb None (Some (VNum 1))]
  /\ docs (purge Scenario.lapsed) = [].
Proof.
  destruct (@length_counts_expired_records Scenario.lapsed
              More.nothing eq_refl eq_refl)
    as (H & _).
  split; [exact H | reflexivity].
Defined.

(** X4.  On a collection that is reached and works, [clear] removes every
    record with one [drop], calls back with [null] and emits nothing; a
    [length] that follows calls back with 0. *)
Theorem clear_empties_the_collection :
  forall (w : World) (b : Beyond),
    let after := fst (clear (w, b)) in
    connected w = true ->
    operational w = true ->
    docs (fst after) = []
    /\ requests (snd after) = requests b ++ [Drop]
    /\ reported w (fst after) = [Cb None None]
    /\ notified w (fst after) = []
    /\ destroyed (snd after) = destroyed b
    /\ reported (fst after) (fst (fst (length after)))
       = [Cb None (Some (VNum 0))].
Proof.
  intros w b after Hc Ho. subst after.
  rewrite clear_runs by assumption. unfold reported, notified. simpl. added.
  repeat split.
  rewrite length_runs by assumption. simpl. now added.
Qed.

Lemma clear_empties_the_collection_witness :
  docs (fst (fst (clear (beyond Scenario.stored)))) = []
  /\ reported Scenario.stored (fst (fst (clear (beyond Scenario.stored))))
     = [Cb None None].
Proof.
  destruct (@clear_empties_the_collection Scenario.stored
              More.nothing eq_refl eq_refl)
    as (H1 & _ & H3 & _).
  split; [exact H1 | exact H3].
Defined.

(* ------------------------------------------------------------------ *)
(** ** Failures of the collection *)

(** X5.  When the connection fails, or the collection is reached and its
    operation fails, each of [get], [all], [destroy], [length] and [clear]
    calls back exactly once, with the error, emits nothing and leaves the
    collection as it was. *)
Theorem collection_failure_is_reported_once :
  forall (rt : Runtime) (self : MongoStore) (sid : string) (w : World)
         (b : Beyond),
    connected w = false \/ operational w = false ->
    let quiet (w' : World) :=
      (exists e, reported w w' = [Cb (Some e) None])
      /\ notified w w' = []
      /\ docs w' = docs w in
    quiet (fst (get rt self sid w))
    /\ quiet (fst (all self w))
    /\ (quiet (fst (fst (destroy self sid (w, b))))
        /\ destroyed (snd (fst (destroy self sid (w, b)))) = destroyed b)
    /\ quiet (fst (fst (length (w, b))))
    /\ quiet (fst (fst (clear (w, b)))).
Proof.
  intros rt self sid w b Hfail quiet. subst quiet.
  unfold reported, notified, get, all, destroy, length, clear.
  unfold_promise. simpl.
  destruct (connected w) eqn:Hc; simpl.
  - destruct Hfail as [Hf | Hf]; [discriminate|]. rewrite Hf. simpl.
    added. repeat split; eauto.
  - added. repeat split; eauto.
Qed.

Lemma collection_failure_is_reported_once_witness :
  connected More.offline = false
  /\ exists e,
       reported More.offline
         (fst (get Scenario.runtime Scenario.plain "abc" More.offline))
       = [Cb (Some e) None].
Proof.
  split; [reflexivity|].
  destruct (@collection_failure_is_reported_once
              Scenario.runtime Scenario.plain "abc" More.offline More.nothing
              (or_introl eq_refl)) as [[[e He] _] _].
  exists e. exact He.
Defined.

(* ------------------------------------------------------------------ *)
(** ** More on [get] and [all] *)

(** X6.  [get] and [all] only read: whatever they find and however they
    end, the collection and the caller's objects are as before. *)
Theorem reads_change_nothing :
  forall (rt : Runtime) (self : MongoStore) (sid : string) (w : World),
    docs (fst (get rt self sid w)) = docs w
    /\ heap (fst (get rt self sid w)) = heap w
    /\ docs (fst (all self w)) = docs w
    /\ heap (fst (all self w)) = heap w.
Proof.
  intros rt self sid w. repeat split.
  all: unfold get, all; unfold_monad; simpl; split_match; reflexivity.
Qed.

Lemma assoc_set_same (k : string) (v : any) (fs : list (string * any)) :
  assoc k (assoc_set k v fs) = Some v.
Proof.
  induction fs as [|[k0 v0] fs IH]; simpl.
  - now rewrite String.eqb_refl.
  - destruct (k0 =? k)%string eqn:E; simpl; now rewrite E.
Qed.

Lemma assoc_set_other (k k' : string) (v : any) (fs : list (string * any)) :
  k' <> k -> assoc k' (assoc_set k v fs) = assoc k' fs.
Proof.
  intros Hk. induction fs as [|[k0 v0] fs IH]; simpl.
  - destruct (k =? k')%string eqn:E; [|reflexivity].
    apply String.eqb_eq in E. congruence.
  - destruct (k0 =? k)%string eqn:E; simpl.
    + apply String.eqb_eq in E. subst k0.
      destruct (k =? k')%string eqn:E'; [|reflexivity].
      apply String.eqb_eq in E'. congruence.
    + destruct (k0 =? k')%string; [reflexivity | exact IH].
Qed.

(** [get] on a record that is found, without encryption. *)
Lemma get_found (rt : Runtime) (self : MongoStore) (sid : string)
  (w : World) (doc : InternalSessionType) (s : any) :
  crypto_ self = None ->
  connected w = true ->
  operational w = true ->
  find (matches (F_and [F_id (computeStorageId self sid);
                        not_expired (now w)])) (docs w) = Some doc ->
  tf_unserialize (transformFunctions self) (session doc) = inr s ->
  reported w (fst (get rt self sid w))
  = (if touchAfter (options self) >? 0 then
       match lastModified doc with
       | Some t =>
           match set_field "lastModified" (VDate t) s with
           | inr s' => [Cb None (Some s')]
           | inl e => [Cb (Some e) None]
           end
       | None => [Cb None (Some s)]
       end
     else [Cb None (Some s)]).
Proof.
  intros Hk Hc Ho Hdoc Hs.
  unfold reported, get. unfold_monad. simpl.
  rewrite Hc. simpl. rewrite Ho. simpl. unfold now in *.
  rewrite Hdoc, Hk, Hs.
  destruct (touchAfter (options self) >? 0); simpl; [|now added].
  destruct (lastModified doc) as [t|]; simpl; [|now added].
  destruct (set_field "lastModified" (VDate t) s); simpl; now added.
Qed.

(** X7.  Without encryption, a [get] that finds a live record on a
    collection that is reached and works calls back with the unserialized
    payload: as it is without idle-touch tracking or when the record has no
    [lastModified]; with the record's [lastModified] set on it, other
    fields untouched, under tracking; and with a [TypeError] instead when
    tracking meets a payload that unserialized to [null] or
    [undefined]. *)
Theorem get_returns_the_stored_payload :
  forall (rt : Runtime) (self : MongoStore) (sid : string) (w : World)
         (doc : InternalSessionType) (s : any),
    let w' := fst (get rt self sid w) in
    crypto_ self = None ->
    connected w = true ->
    operational w = true ->
    lookup (computeStorageId self sid) w = Some doc ->
    live (now w) doc = true ->
    tf_unserialize (transformFunctions self) (session doc) = inr s ->
    (touchAfter (options self) <= 0 \/ lastModified doc = None ->
     reported w w' = [Cb None (Some s)])
    /\ (forall t, touchAfter (options self) > 0 ->
                  lastModified doc = Some t ->
                  (forall j fs, s = VObj j fs ->
                     exists s',
                       reported w w' = [Cb None (Some s')]
                       /\ opt_field "lastModified" s' = VDate t
                       /\ forall k, k <> "lastModified" ->
                                    opt_field k s' = opt_field k s)
                  /\ (s = VNull \/ s = VUndefined ->
                      exists msg,
                        reported w w' = [Cb (Some (TypeError msg)) None])).
Proof.
  intros rt self sid w doc s w' Hk Hc Ho Hdoc Hlive Hs. subst w'.
  rewrite (get_found rt self sid w Hk Hc Ho
             (find_live _ _ _ Hdoc Hlive) Hs).
  split.
  - intros [Hoff | Hnone].
    + destruct (touchAfter (options self) >? 0) eqn:E; [|reflexivity].
      apply Z.gtb_lt in E. lia.
    + rewrite Hnone. now destruct (touchAfter (options self) >? 0).
  - intros t Hon Ht. apply Z.gt_lt, Z.gtb_lt in Hon. rewrite Hon, Ht.
    split.
    + intros j fs ->. cbn [set_field]. eexists. split; [reflexivity|].
      unfold opt_field. split.
      * now rewrite assoc_set_same.
      * intros k Hk'. now rewrite assoc_set_other.
    + intros [-> | ->]; simpl; eauto.
Qed.

Lemma get_returns_the_stored_payload_witness :
  lookup "abc" Scenario.stored
  = Some (Scenario.record (Some 1000500) (Some 5))
  /\ reported Scenario.stored
       (fst (get Scenario.runtime Scenario.plain "abc" Scenario.stored))
     = [Cb None (Some Scenario.payload)]
  /\ exists s',
       reported Scenario.stored
         (fst (get Scenario.runtime Scenario.tracking "abc" Scenario.stored))
       = [Cb None (Some s')]
       /\ opt_field "lastModified" s' = VDate 5.
Proof.
  split; [reflexivity|]. split.
  - destruct (@get_returns_the_stored_payload
                Scenario.runtime Scenario.plain "abc" Scenario.stored
                (Scenario.record (Some 1000500) (Some 5)) Scenario.payload
                eq_refl eq_refl eq_refl eq_refl eq_refl eq_refl) as [H _].
    apply H. left. vm_compute. discriminate.
  - destruct (@get_returns_the_stored_payload
                Scenario.runtime Scenario.tracking "abc" Scenario.stored
                (Scenario.record (Some 1000500) (Some 5)) Scenario.payload
                eq_refl eq_refl eq_refl eq_refl eq_refl eq_refl) as [_ H].
    destruct (H 5 eq_refl eq_refl) as [Hobj _].
    destruct (Hobj None [("cookie", VObj None []); ("user", VStr "u1")]
                eq_refl) as (s' & Hr & Hlm & _).
    exists s'. split; [exact Hr | exact Hlm].
Defined.

(** X8.  With encryption on and idle-touch tracking off, a [get] that
    finds a live record and decrypts it calls back once, with the
    unserialized plaintext: what is handed to kruptein is the
    [JSON.stringify] of the unserialized stored payload, and what is
    called back is the plaintext unserialized in its turn. *)
Theorem get_decrypts_the_stored_payload :
  forall (rt : Runtime) (self : MongoStore) (sid : string) (w : World)
         (kr : Kruptein) (doc : InternalSessionType)
         (u text plaintext s : any),
    let w' := fst (get rt self sid w) in
    crypto_ self = Some kr ->
    touchAfter (options self) <= 0 ->
    connected w = true ->
    operational w = true ->
    lookup (computeStorageId self sid) w = Some doc ->
    live (now w) doc = true ->
    tf_unserialize (transformFunctions self) (session doc) = inr u ->
    JSON_stringify rt u = inr text ->
    k_get kr (secret (crypto (options self))) text = inr plaintext ->
    tf_unserialize (transformFunctions self) plaintext = inr s ->
    reported w w' = [Cb None (Some s)]
    /\ notified w w' = [EvGet sid]
    /\ docs w' = docs w.
Proof.
  intros rt self sid w kr doc u text plaintext s w'
    Hk Hoff Hc Ho Hdoc Hlive Hu Htext Hget Hs. subst w'.
  pose proof (find_live _ _ _ Hdoc Hlive) as Hfind.
  unfold reported, notified, get. unfold_monad. simpl.
  rewrite Hc. simpl. rewrite Ho. simpl. unfold now in *.
  rewrite Hfind, Hk, Hu, Htext, Hget. simpl. rewrite Hs.
  destruct (touchAfter (options self) >? 0) eqn:E.
  - apply Z.gtb_lt in E. lia.
  - simpl. now added.
Qed.

Lemma get_decrypts_the_stored_payload_witness :
  is_some (crypto_ Sealed.sealing) = true
  /\ reported Sealed.world
       (fst (get Sealed.runtime Sealed.sealing "abc" Sealed.world))
     = [Cb None (Some Scenario.payload)].
Proof.
  split; [reflexivity|].
  refine (proj1 (@get_decrypts_the_stored_payload
                   Sealed.runtime Sealed.sealing "abc" Sealed.world
                   Sealed.seal Sealed.sealed_record
                   (VObj None [("sealed", Scenario.payload)])
                   (VObj None [("sealed", Scenario.payload)])
                   Scenario.payload Scenario.payload
                   eq_refl _ eq_refl eq_refl eq_refl eq_refl
                   eq_refl eq_refl eq_refl eq_refl)).
  vm_compute. discriminate.
Defined.

(** X9.  [get] emits [get] exactly when it hands a session (or [null])
    to its callback as the last thing it does; when it ends on an error it
    emits nothing. *)
Theorem get_notifies_only_on_success :
  forall (rt : Runtime) (self : MongoStore) (sid : string) (w : World),
    let w' := fst (get rt self sid w) in
    (notified w w' = [EvGet sid]
     /\ exists s before,
          reported w w' = before ++ [Cb None (Some s)])
    \/ (notified w w' = []
        /\ exists e before,
             reported w w' = before ++ [Cb (Some e) None]).
Proof.
  intros rt self sid w w'. subst w'.
  unfold reported, notified, get. unfold_monad. simpl.
  split_match; added.
  all: first
    [ left; split; [reflexivity|]; eexists; eexists;
      first [ exact (eq_refl : [_] = [] ++ [_])
            | exact (eq_refl : [_; _] = [_] ++ [_]) ]
    | right; split; [reflexivity|]; eexists; eexists;
      first [ exact (eq_refl : [_] = [] ++ [_])
            | exact (eq_refl : [_; _] = [_] ++ [_]) ] ].
Qed.

(** The iterator of [all] on documents that all unserialize. *)
Lemma push_each_all (self : MongoStore) (ds : list InternalSessionType)
  (vs acc : list any) :
  Forall2 (fun d v =>
             tf_unserialize (transformFunctions self) (session d) = inr v)
    ds vs ->
  push_each self ds acc = inr (acc ++ vs).
Proof.
  intros H. revert acc.
  induction H as [|d v ds vs Hd _ IH]; intros acc; simpl.
  - now rewrite app_nil_r.
  - rewrite Hd, IH, <- app_assoc. reflexivity.
Qed.

(** X10.  On a collection that is reached and works, when the payload of
    every live record unserializes, [all] calls back once with the
    unserialized payloads of the live records, in the order of the
    collection, and emits [all] with the same array: nothing is decrypted
    and no [lastModified] is attached. *)
Theorem all_returns_the_live_payloads :
  forall (self : MongoStore) (w : World) (results : list any),
    let w' := fst (all self w) in
    connected w = true ->
    operational w = true ->
    Forall2 (fun d v =>
               tf_unserialize (transformFunctions self) (session d) = inr v)
      (docs (purge w)) results ->
    reported w w' = [CbAll results]
    /\ notified w w' = [EvAll results]
    /\ List.length results = List.length (docs (purge w))
    /\ uncaught w' = uncaught w.
Proof.
  intros self w results w' Hc Ho Hall. subst w'.
  pose proof (Forall2_length Hall) as Hlen.
  unfold purge in Hall. simpl in Hall.
  unfold reported, notified, all. unfold_monad. simpl.
  rewrite Hc. simpl. rewrite Ho. simpl.
  rewrite (filter_ext _ _ (matches_not_expired (clock w (reads w)))).
  unfold now in Hall. rewrite (push_each_all self [] Hall). simpl.
  added. auto.
Qed.

Lemma all_returns_the_live_payloads_witness :
  reported Scenario.stored (fst (all Scenario.plain Scenario.stored))
  = [CbAll [Scenario.payload]]
  /\ reported Scenario.lapsed (fst (all Scenario.plain Scenario.lapsed))
     = [CbAll []].
Proof.
  split.
  - destruct (@all_returns_the_live_payloads Scenario.plain Scenario.stored
                [Scenario.payload] eq_refl eq_refl) as [H _].
    + vm_compute. repeat constructor.
    + exact H.
  - destruct (@all_returns_the_live_payloads Scenario.plain Scenario.lapsed
                [] eq_refl eq_refl) as [H _].
    + vm_compute. constructor.
    + exact H.
Defined.

(* ------------------------------------------------------------------ *)
(** ** More on [set] *)

(** [set] does not change whether the collection is reached and works. *)
Lemma set_env (rt : Runtime) (self : MongoStore) (sid : string) (ref : nat)
  (w : World) :
  connected (fst (set rt self sid ref w)) = connected w
  /\ operational (fst (set rt self sid ref w)) = operational w.
Proof.
  unfold set. unfold_monad. simpl. split; split_match; simpl; congruence.
Qed.

(** The record a [set] that ran has stored. *)
Lemma set_stored (rt : Runtime) (self : MongoStore) (sid : string)
  (ref : nat) (w : World) (serialized : any) :
  connected w = true ->
  operational w = true ->
  tf_serialize (transformFunctions self)
    (heap (fst (set rt self sid ref w)) ref) = inr serialized ->
  exists d,
    lookup (computeStorageId self sid) (fst (set rt self sid ref w)) = Some d
    /\ session d = stored_session self serialized
    /\ expires d = Some (recomputed_expires rt self (heap w ref) (now w))
    /\ lastModified d
       = match u_lastModified (set_assigns rt self ref w serialized) with
         | Some t => Some t
         | None =>
             match lookup (computeStorageId self sid) w with
             | Some d0 => lastModified d0
             | None => None
             end
         end.
Proof.
  intros Hc Ho Hser.
  destruct (set_runs rt self sid ref w Hc Ho Hser) as (Hdocs & _).
  unfold lookup. rewrite Hdocs, upsert_lookup.
  eexists. split; [reflexivity|].
  destruct (find (by_id (computeStorageId self sid)) (docs w)); simpl.
  all: repeat split; try now destruct (touchAfter (options self) >? 0).
Qed.

(** X12.  Without encryption, a [get] that follows a successful [set] of
    the same session, before the expiry [set] gave the record, calls back
    with what [unserialize] makes of what [serialize] made of the payload;
    under idle-touch tracking the time [set] read for the record is
    attached to it as [lastModified]. *)
Theorem set_then_get_returns_the_payload :
  forall (rt : Runtime) (self : MongoStore) (sid : string) (ref : nat)
         (w : World) (serialized s : any),
    let w1 := fst (set rt self sid ref w) in
    let w2 := fst (get rt self sid w1) in
    crypto_ self = None ->
    In (Cb None None) (reported w w1) ->
    tf_serialize (transformFunctions self) (heap w1 ref) = inr serialized ->
    tf_unserialize (transformFunctions self) serialized = inr s ->
    now w1 < recomputed_expires rt self (heap w ref) (now w) ->
    (touchAfter (options self) <= 0 -> reported w1 w2 = [Cb None (Some s)])
    /\ (touchAfter (options self) > 0 ->
        forall j fs, s = VObj j fs ->
          reported w1 w2
          = [Cb None
               (Some (VObj j
                        (assoc_set "lastModified"
                           (VDate (clock w
                                     (if truthy (cookie_expires (heap w ref))
                                      then reads w else S (reads w))))
                           fs)))]).
Proof.
  intros rt self sid ref w serialized s w1 w2 Hk Hok Hser Hs Hlive.
  subst w1 w2.
  destruct (set_success rt self sid ref w Hok) as (Hc & Ho & _).
  destruct (set_stored rt self sid ref w Hc Ho Hser)
    as (d & Hd & Hsess & Hexp & Hlm).
  destruct (set_env rt self sid ref w) as (Hc1 & Ho1).
  unfold stored_session in Hsess. rewrite Hk in Hsess.
  assert (Hfind : find (matches
                          (F_and [F_id (computeStorageId self sid);
                                  not_expired
                                    (now (fst (set rt self sid ref w)))]))
                    (docs (fst (set rt self sid ref w))) = Some d).
  { apply find_live; [exact Hd|]. unfold live. rewrite Hexp.
    now apply Z.ltb_lt. }
  rewrite <- Hsess in Hs.
  rewrite (get_found rt self sid _ Hk (eq_trans Hc1 Hc) (eq_trans Ho1 Ho)
             Hfind Hs).
  split.
  - intros Hoff. destruct (touchAfter (options self) >? 0) eqn:E; auto.
    apply Z.gtb_lt in E. lia.
  - intros Hon j fs ->. apply Z.gt_lt, Z.gtb_lt in Hon.
    rewrite Hon, Hlm. unfold set_assigns. cbn [u_lastModified].
    rewrite Hon. reflexivity.
Qed.

Lemma set_then_get_returns_the_payload_witness :
  In (Cb None None)
    (reported Scenario.fresh
       (fst (set Scenario.runtime Scenario.plain "abc" 0 Scenario.fresh)))
  /\ reported
       (fst (set Scenario.runtime Scenario.plain "abc" 0 Scenario.fresh))
       (fst (get Scenario.runtime Scenario.plain "abc"
               (fst (set Scenario.runtime Scenario.plain "abc" 0
                       Scenario.fresh))))
     = [Cb None (Some Scenario.payload)]
  /\ reported
       (fst (set Scenario.runtime Scenario.tracking "abc" 0
               Scenario.expiring))
       (fst (get Scenario.runtime Scenario.tracking "abc"
               (fst (set Scenario.runtime Scenario.tracking "abc" 0
                       Scenario.expiring))))
     = [Cb None
          (Some (VObj None
                   [("cookie",
                     VObj None [("originalMaxAge", VNum 500);
                                ("expires", VDate 1000500);
                                ("httpOnly", VBool true);
                                ("path", VStr "/")]);
                    ("user", VStr "u1");
                    ("lastModified", VDate 1000000)]))].
Proof.
  split; [vm_compute; auto|]. split.
  - destruct (@set_then_get_returns_the_payload
                Scenario.runtime Scenario.plain "abc" 0%nat Scenario.fresh
                Scenario.payload Scenario.payload) as [H _].
    + reflexivity.
    + vm_compute. auto.
    + reflexivity.
    + reflexivity.
    + reflexivity.
    + apply H. vm_compute. discriminate.
  - destruct (@set_then_get_returns_the_payload
                Scenario.runtime Scenario.tracking "abc" 0%nat
                Scenario.expiring
                Scenario.expiring_serialized Scenario.expiring_serialized)
      as [_ H].
    + reflexivity.
    + vm_compute. auto.
    + reflexivity.
    + reflexivity.
    + reflexivity.
    + exact (H eq_refl None _ eq_refl).
Defined.

(** X13.  With encryption on, a [set] whose payload serializes, on a
    collection that is reached and works, stores what kruptein made of the
    serialized payload and calls back once with [null]. *)
Theorem set_stores_the_ciphertext :
  forall (rt : Runtime) (self : MongoStore) (sid : string) (ref : nat)
         (w : World) (kr : Kruptein) (serialized data : any),
    let w' := fst (set rt self sid ref w) in
    crypto_ self = Some kr ->
    connected w = true ->
    operational w = true ->
    tf_serialize (transformFunctions self) (heap w' ref) = inr serialized ->
    k_set kr (secret (crypto (options self))) serialized = inr data ->
    reported w w' = [Cb None None]
    /\ exists d, lookup (computeStorageId self sid) w' = Some d
                 /\ session d = data.
Proof.
  intros rt self sid ref w kr serialized data w' Hk Hc Ho Hser Hset.
  subst w'.
  destruct (set_runs rt self sid ref w Hc Ho Hser) as (_ & _ & _ & Hrep).
  destruct (set_stored rt self sid ref w Hc Ho Hser) as (d & Hd & Hs & _).
  rewrite Hk, Hset in Hrep. split; [exact Hrep|].
  exists d. split; [exact Hd|].
  unfold stored_session in Hs. now rewrite Hk, Hset in Hs.
Qed.

Lemma set_stores_the_ciphertext_witness :
  reported Scenario.fresh
    (fst (set Sealed.runtime Sealed.sealing "abc" 0 Scenario.fresh))
  = [Cb None None]
  /\ exists d,
       lookup "abc"
         (fst (set Sealed.runtime Sealed.sealing "abc" 0 Scenario.fresh))
       = Some d
       /\ session d = VObj None [("sealed", Scenario.payload)].
Proof.
  exact (@set_stores_the_ciphertext
           Sealed.runtime Sealed.sealing "abc" 0%nat Scenario.fresh
           Sealed.seal Scenario.payload
           (VObj None [("sealed", Scenario.payload)])
           eq_refl eq_refl eq_refl eq_refl eq_refl).
Defined.

(** X14.  With encryption on, when kruptein fails to encrypt, [set] calls
    back with the error, then goes on: it stores the serialized payload
    unencrypted, emits its notifications and calls back a second time,
    with [null]. *)
Theorem set_stores_plaintext_when_encryption_fails :
  forall (rt : Runtime) (self : MongoStore) (sid : string) (ref : nat)
         (w : World) (kr : Kruptein) (serialized : any) (msg : string),
    let w' := fst (set rt self sid ref w) in
    crypto_ self = Some kr ->
    connected w = true ->
    operational w = true ->
    tf_serialize (transformFunctions self) (heap w' ref) = inr serialized ->
    k_set kr (secret (crypto (options self))) serialized = inl msg ->
    reported w w' = [Cb (Some (Error msg)) None; Cb None None]
    /\ (exists d, lookup (computeStorageId self sid) w' = Some d
                  /\ session d = serialized)
    /\ exists first, notified w w' = [first; EvSet sid].
Proof.
  intros rt self sid ref w kr serialized msg w' Hk Hc Ho Hser Hset.
  subst w'.
  destruct (set_runs rt self sid ref w Hc Ho Hser) as (_ & _ & Hnot & Hrep).
  destruct (set_stored rt self sid ref w Hc Ho Hser) as (d & Hd & Hs & _).
  rewrite Hk, Hset in Hrep. split; [exact Hrep|]. split.
  - exists d. split; [exact Hd|].
    unfold stored_session in Hs. now rewrite Hk, Hset in Hs.
  - eexists. exact Hnot.
Qed.

Lemma set_stores_plaintext_when_encryption_fails_witness :
  reported Scenario.fresh
    (fst (set More.jammed_runtime More.jamming "abc" 0 Scenario.fresh))
  = [Cb (Some (Error "Unable to encrypt")) None; Cb None None]
  /\ exists d,
       lookup "abc"
         (fst (set More.jammed_runtime More.jamming "abc" 0 Scenario.fresh))
       = Some d
       /\ session d = Scenario.payload.
Proof.
  destruct (@set_stores_plaintext_when_encryption_fails
              More.jammed_runtime More.jamming "abc" 0%nat Scenario.fresh
              More.jammed Scenario.payload "Unable to encrypt"
              eq_refl eq_refl eq_refl eq_refl eq_refl) as (H1 & H2 & _).
  split; [exact H1 | exact H2].
Defined.

(** X15.  When [serialize] throws on the payload, [set] calls back once
    with what was thrown, asks nothing of the collection and emits
    nothing. *)
Theorem set_reports_a_failing_serialize :
  forall (rt : Runtime) (self : MongoStore) (sid : string) (ref : nat)
         (w : World) (e : Exn),
    let w' := fst (set rt self sid ref w) in
    tf_serialize (transformFunctions self) (heap w' ref) = inl e ->
    reported w w' = [Cb (Some e) None]
    /\ asked w w' = []
    /\ notified w w' = []
    /\ docs w' = docs w.
Proof.
  intros rt self sid ref w e w'. subst w'.
  rewrite set_heap, Nat.eqb_refl, andb_true_r.
  unfold reported, asked, notified, set. unfold_monad. simpl.
  split_match; added.
  all: try match goal with
           | H : (?r =? ?r)%nat = false |- _ =>
               rewrite Nat.eqb_refl in H; discriminate
           end.
  all: try congruence.
  all: intros He; inversion He; subst; auto.
Qed.

Lemma set_reports_a_failing_serialize_witness :
  reported Scenario.fresh
    (fst (set Scenario.runtime More.refusing "abc" 0 Scenario.fresh))
  = [Cb (Some (Thrown (VStr "refused"))) None]
  /\ docs (fst (set Scenario.runtime More.refusing "abc" 0 Scenario.fresh))
     = [].
Proof.
  destruct (@set_reports_a_failing_serialize
              Scenario.runtime More.refusing "abc" 0%nat Scenario.fresh
              (Thrown (VStr "refused")) eq_refl) as (H1 & _ & _ & H4).
  split; [exact H1 | exact H4].
Defined.

(** X16.  A successful [set] followed by a successful [set] of the same
    session: the second one finds the record, replaces it and emits
    [update] then [set], the collection keeping its size. *)
Theorem set_twice_updates :
  forall (rt : Runtime) (self : MongoStore) (sid : string) (ref ref' : nat)
         (w : World),
    let w1 := fst (set rt self sid ref w) in
    let w2 := fst (set rt self sid ref' w1) in
    In (Cb None None) (reported w w1) ->
    In (Cb None None) (reported w1 w2) ->
    notified w1 w2 = [EvUpdate sid; EvSet sid]
    /\ List.length (docs w2) = List.length (docs w1).
Proof.
  intros rt self sid ref ref' w w1 w2 Hok1 Hok2. subst w1 w2.
  destruct (set_success rt self sid ref w Hok1) as (Hc & Ho & ser & Hser).
  destruct (set_stored rt self sid ref w Hc Ho Hser) as (d & Hd & _).
  destruct (set_success rt self sid ref' _ Hok2) as (Hc2 & Ho2 & ser2 & Hser2).
  destruct (set_runs rt self sid ref' _ Hc2 Ho2 Hser2)
    as (Hdocs & _ & Hnot & _).
  rewrite Hd in Hnot. split; [exact Hnot|].
  rewrite Hdocs. unfold upsert. unfold lookup in Hd.
  destruct (update_first (computeStorageId self sid)
              (set_assigns rt self ref' (fst (set rt self sid ref w)) ser2)
              (docs (fst (set rt self sid ref w))))
    as [[ds c]|] eqn:Hu.
  - now destruct (update_first_some _ _ _ Hu) as (_ & _ & _ & Hlen & _).
  - apply update_first_none in Hu. congruence.
Qed.

Lemma set_twice_updates_witness :
  notified
    (fst (set Scenario.runtime Scenario.tracking "abc" 0 Scenario.fresh))
    (fst (set Scenario.runtime Scenario.tracking "abc" 0
            (fst (set Scenario.runtime Scenario.tracking "abc" 0
                    Scenario.fresh))))
  = [EvUpdate "abc"; EvSet "abc"].
Proof.
  refine (proj1 (@set_twice_updates
                   Scenario.runtime Scenario.tracking "abc" 0%nat 0%nat
                   Scenario.fresh _ _)).
  - vm_compute. auto.
  - vm_compute. auto.
Defined.

(** X17.  Idle-touch tracking decides what a successful [set] does to
    [lastModified]: with tracking the record stored gets the time [set]
    read for it (the first reading of the clock when the cookie carries an
    expiry, the second when the expiry took the first); without it a
    record that was there keeps the [lastModified] it had, and a record
    that is inserted has none. *)
Theorem set_stamps_lastModified_only_when_tracking :
  forall (rt : Runtime) (self : MongoStore) (sid : string) (ref : nat)
         (w : World),
    let k := computeStorageId self sid in
    let w' := fst (set rt self sid ref w) in
    In (Cb None None) (reported w w') ->
    exists d,
      lookup k w' = Some d
      /\ (touchAfter (options self) > 0 ->
          lastModified d
          = Some (clock w (if truthy (cookie_expires (heap w ref))
                           then reads w else S (reads w))))
      /\ (touchAfter (options self) <= 0 ->
          lastModified d = match lookup k w with
                           | Some d0 => lastModified d0
                           | None => None
                           end).
Proof.
  intros rt self sid ref w k w' Hok. subst k w'.
  destruct (set_success rt self sid ref w Hok) as (Hc & Ho & ser & Hser).
  destruct (set_stored rt self sid ref w Hc Ho Hser)
    as (d & Hd & _ & _ & Hlm).
  exists d. split; [exact Hd|].
  unfold set_assigns in Hlm. cbn [u_lastModified] in Hlm.
  destruct (touchAfter (options self) >? 0) eqn:E.
  - split; [|apply Z.gtb_lt in E; lia].
    intros _. exact Hlm.
  - split; [|intros _; exact Hlm].
    intros Hon. apply Z.gt_lt, Z.gtb_lt in Hon. congruence.
Qed.

Lemma set_stamps_lastModified_only_when_tracking_witness :
  In (Cb None None)
    (reported Scenario.stored
       (fst (set Scenario.runtime Scenario.plain "abc" 0 Scenario.stored)))
  /\ (exists d,
       lookup "abc"
         (fst (set Scenario.runtime Scenario.plain "abc" 0 Scenario.stored))
       = Some d
       /\ lastModified d = Some 5)
  /\ (exists d,
        lookup "abc"
          (fst (set Scenario.runtime Scenario.tracking "abc" 0
                  Scenario.fresh))
        = Some d
        /\ lastModified d = Some 1000001)
  /\ exists d,
       lookup "abc"
         (fst (set Scenario.runtime Scenario.tracking "abc" 0
                 Scenario.expiring))
       = Some d
       /\ lastModified d = Some 1000000.
Proof.
  split; [vm_compute; auto|]. split; [|split].
  - destruct (@set_stamps_lastModified_only_when_tracking
                Scenario.runtime Scenario.plain "abc" 0%nat Scenario.stored)
      as (d & Hd & _ & Hoff).
    + vm_compute. auto.
    + exists d. split; [exact Hd|]. apply Hoff. vm_compute. discriminate.
  - destruct (@set_stamps_lastModified_only_when_tracking
                Scenario.runtime Scenario.tracking "abc" 0%nat Scenario.fresh)
      as (d & Hd & Hon & _).
    + vm_compute. auto.
    + exists d. split; [exact Hd|]. apply Hon. reflexivity.
  - destruct (@set_stamps_lastModified_only_when_tracking
                Scenario.runtime Scenario.tracking "abc" 0%nat
                Scenario.expiring)
      as (d & Hd & Hon & _).
    + vm_compute. auto.
    + exists d. split; [exact Hd|]. apply Hon. reflexivity.
Defined.

(* ------------------------------------------------------------------ *)
(** ** More on [touch] *)

(** X18.  A [touch] that wrote and reports success rewrote the stored
    payload only if the cookie of the payload carries an expiry: then the
    stored [session] is what [serialize] made of the payload, not
    encrypted even when encryption is on; otherwise the stored [session]
    is the one that was there. *)
Theorem touch_rewrites_the_payload_only_with_an_expiry :
  forall (rt : Runtime) (self : MongoStore) (sid : string) (payload : any)
         (w : World) (u : SetFields) (d : InternalSessionType),
    let k := computeStorageId self sid in
    let w' := fst (touch rt self sid payload w) in
    In (Cb None None) (reported w w') ->
    asked w w' = [UpdateOne k u false] ->
    lookup k w = Some d ->
    exists d',
      lookup k w' = Some d'
      /\ (truthy (cookie_expires payload) = false ->
          u_session u = None /\ session d' = session d)
      /\ (truthy (cookie_expires payload) = true ->
          exists serialized,
            tf_serialize (transformFunctions self) payload = inr serialized
            /\ u_session u = Some serialized
            /\ session d' = serialized).
Proof.
  intros rt self sid payload w u d k w'. subst k w'.
  unfold reported, asked, lookup, touch. unfold_monad. simpl.
  split_match; added.
  all: try (intros H; simpl in H; intuition discriminate).
  all: intros _ Hasked Hd; inversion Hasked; subst u; clear Hasked.
  all: match goal with
       | H : update_first _ _ _ = Some _ |- _ =>
           destruct (update_first_some _ _ _ H) as (d0 & H1 & H2 & _);
           rewrite H1 in Hd; inversion Hd; subst d0;
           eexists; split; [exact H2|]
       end.
  all: simpl; split; intros Hcookie; try congruence; eauto.
Qed.

Lemma touch_rewrites_the_payload_only_with_an_expiry_witness :
  In (Cb None None)
    (reported Scenario.stored
       (fst (touch Scenario.runtime Scenario.plain "abc"
               (VObj None [("user", VStr "u2")]) Scenario.stored)))
  /\ (exists d',
       lookup "abc"
         (fst (touch Scenario.runtime Scenario.plain "abc"
                 (VObj None [("user", VStr "u2")]) Scenario.stored))
       = Some d'
       /\ session d' = Scenario.payload)
  /\ In (Cb None None)
       (reported Scenario.stored
          (fst (touch Scenario.runtime Scenario.plain "abc"
                  Scenario.expiring_session Scenario.stored)))
  /\ exists d',
       lookup "abc"
         (fst (touch Scenario.runtime Scenario.plain "abc"
                 Scenario.expiring_session Scenario.stored))
       = Some d'
       /\ session d' = Scenario.expiring_serialized.
Proof.
  split; [vm_compute; auto|]. split; [|split; [vm_compute; auto|]].
  - destruct (@touch_rewrites_the_payload_only_with_an_expiry
                Scenario.runtime Scenario.plain "abc"
                (VObj None [("user", VStr "u2")]) Scenario.stored
                {| u_session := None; u_expires := Some 1060001;
                   u_lastModified := None |}
                (Scenario.record (Some 1000500) (Some 5)))
      as (d' & Hd' & Hkeep & _).
    + vm_compute. auto.
    + reflexivity.
    + reflexivity.
    + exists d'. split; [exact Hd'|]. now destruct (Hkeep eq_refl).
  - destruct (@touch_rewrites_the_payload_only_with_an_expiry
                Scenario.runtime Scenario.plain "abc"
                Scenario.expiring_session Scenario.stored
                {| u_session := Some Scenario.expiring_serialized;
                   u_expires := Some 1000500;
                   u_lastModified := None |}
                (Scenario.record (Some 1000500) (Some 5)))
      as (d' & Hd' & _ & Hrewrite).
    + vm_compute. auto.
    + reflexivity.
    + reflexivity.
    + exists d'. split; [exact Hd'|].
      destruct (Hrewrite eq_refl) as (ser & Hser & _ & Hs).
      rewrite Hs. vm_compute in Hser. now inversion Hser.
Defined.

(** X19.  [touch] emits [touch], with the session id and the payload,
    exactly when it asked for the update and reports success; the skip
    reports success without emitting, and a [touch] that does not report
    success emits nothing. *)
Theorem touch_notifies_only_after_a_write :
  forall (rt : Runtime) (self : MongoStore) (sid : string) (payload : any)
         (w : World),
    let w' := fst (touch rt self sid payload w) in
    (In (Cb None None) (reported w w') ->
     (asked w w' = [] /\ notified w w' = [] /\ docs w' = docs w)
     \/ (exists u, asked w w'
                   = [UpdateOne (computeStorageId self sid) u false]
                   /\ notified w w' = [EvTouch sid payload]))
    /\ (~ In (Cb None None) (reported w w') -> notified w w' = []).
Proof.
  intros rt self sid payload w w'. subst w'.
  unfold reported, asked, notified, touch. unfold_monad. simpl.
  split_match; added.
  all: split; [intros H | intros H].
  all: try (simpl in H; intuition discriminate).
  all: try reflexivity.
  all: try (left; repeat split; reflexivity).
  all: try (right; eexists; split; reflexivity).
  all: exfalso; apply H; simpl; auto.
Qed.

Lemma touch_notifies_only_after_a_write_witness :
  In (Cb None None)
    (reported Scenario.stored
       (fst (touch Scenario.runtime Scenario.tracking "abc"
               (Scenario.payload_modified 999000) Scenario.stored)))
  /\ notified Scenario.stored
       (fst (touch Scenario.runtime Scenario.tracking "abc"
               (Scenario.payload_modified 999000) Scenario.stored))
     = []
  /\ notified Scenario.stored
       (fst (touch Scenario.runtime Scenario.tracking "abc"
               (Scenario.payload_modified 900000) Scenario.stored))
     = [EvTouch "abc" (Scenario.payload_modified 900000)].
Proof.
  split; [vm_compute; auto|]. split.
  - destruct (@touch_notifies_only_after_a_write
                Scenario.runtime Scenario.tracking "abc"
                (Scenario.payload_modified 999000) Scenario.stored)
      as [H _].
    destruct H as [(_ & H & _) | (u & Hu & _)].
    + vm_compute. auto.
    + exact H.
    + vm_compute in Hu. discriminate.
  - destruct (@touch_notifies_only_after_a_write
                Scenario.runtime Scenario.tracking "abc"
                (Scenario.payload_modified 900000) Scenario.stored)
      as [H _].
    destruct H as [(Ha & _) | (u & _ & H)].
    + vm_compute. auto.
    + vm_compute in Ha. discriminate.
    + exact H.
Defined.

Lemma apply_set_same (u : SetFields) (d : InternalSessionType) :
  (forall s, u_session u = Some s -> session d = s) ->
  (forall e, u_expires u = Some e -> expires d = Some e) ->
  (forall t, u_lastModified u = Some t -> lastModified d = Some t) ->
  doc_eqb d (apply_set u d) = true.
Proof.
  intros Hs He Hm.
  replace (apply_set u d) with
    {| _id := _id d; session := session d; expires := expires d;
       lastModified := lastModified d |}.
  - apply (doc_eqb_refl d).
  - unfold apply_set. f_equal.
    + destruct (u_session u) as [s|]; simpl; [now rewrite (Hs s)|reflexivity].
    + destruct (u_expires u) as [e|]; [now rewrite (He e)|reflexivity].
    + destruct (u_lastModified u) as [t|]; [now rewrite (Hm t)|reflexivity].
Qed.

(** X20.  A [touch] whose update would change nothing is reported as a
    session that was not found: when the payload has no [lastModified] and
    its cookie carries the expiry the record already has, with the payload
    serializing to the stored [session], [touch] calls back with "Unable
    to find the session to touch" although the record is there, and emits
    nothing. *)
Theorem touch_of_an_unchanged_record_is_an_error :
  forall (rt : Runtime) (self : MongoStore) (sid : string) (payload : any)
         (w : World) (d : InternalSessionType) (e : Z),
    let k := computeStorageId self sid in
    let w' := fst (touch rt self sid payload w) in
    connected w = true ->
    operational w = true ->
    truthy (opt_field "lastModified" payload) = false ->
    cookie_expires payload = VDate e ->
    tf_serialize (transformFunctions self) payload = inr (session d) ->
    lookup k w = Some d ->
    expires d = Some e ->
    reported w w'
    = [Cb (Some (Error "Unable to find the session to touch")) None]
    /\ notified w w' = []
    /\ docs w' = docs w.
Proof.
  intros rt self sid payload w d e k w' Hc Ho Hlm Hcookie Hser Hd He.
  subst k w'.
  assert (Hf : field "lastModified" payload
               = inr (opt_field "lastModified" payload)).
  { unfold cookie_expires in Hcookie.
    destruct payload; simpl in Hcookie; try discriminate; reflexivity. }
  assert (Hu : update_first (computeStorageId self sid)
                 {| u_session := Some (session d);
                    u_expires := Some e;
                    u_lastModified := None |} (docs w)
               = Some (docs w, false)).
  { unfold lookup, by_id in Hd. clear - Hd He.
    induction (docs w) as [|x ds IH]; simpl in *; [discriminate|].
    destruct (_id x =? computeStorageId self sid)%string.
    - inversion Hd; subst x.
      rewrite apply_set_same by (simpl; intros; congruence).
      simpl. do 2 f_equal.
      destruct d; unfold apply_set; simpl in *. congruence.
    - now rewrite (IH Hd). }
  unfold reported, notified, touch. unfold_monad.
  rewrite Hf, Hlm. simpl. rewrite andb_false_r. simpl.
  rewrite Hcookie. simpl. rewrite Hser. simpl. rewrite Hc. simpl.
  rewrite Ho. simpl. rewrite Hu. simpl. now added.
Qed.

Lemma touch_of_an_unchanged_record_is_an_error_witness :
  lookup "abc" More.settled = Some More.dated_record
  /\ reported More.settled
       (fst (touch Scenario.runtime Scenario.plain "abc"
               More.dated_payload More.settled))
     = [Cb (Some (Error "Unable to find the session to touch")) None].
Proof.
  split; [reflexivity|].
  exact (proj1 (@touch_of_an_unchanged_record_is_an_error
                  Scenario.runtime Scenario.plain "abc"
                  More.dated_payload More.settled More.dated_record
                  1000500 eq_refl eq_refl eq_refl eq_refl eq_refl eq_refl
                  eq_refl)).
Defined.

(** X21.  [touch] with a payload that is [null] or [undefined], or whose
    [lastModified] is set and is not a date, calls back once with a
    [TypeError], asks nothing of the collection and changes nothing. *)
Theorem touch_rejects_a_malformed_payload :
  forall (rt : Runtime) (self : MongoStore) (sid : string) (payload : any)
         (w : World),
    let w' := fst (touch rt self sid payload w) in
    payload = VNull \/ payload = VUndefined
    \/ (truthy (opt_field "lastModified" payload) = true
        /\ forall t, opt_field "lastModified" payload <> VDate t) ->
    (exists msg, reported w w' = [Cb (Some (TypeError msg)) None])
    /\ asked w w' = []
    /\ notified w w' = []
    /\ docs w' = docs w.
Proof.
  intros rt self sid payload w w' H. subst w'.
  unfold reported, asked, notified, touch. unfold_monad.
  destruct H as [-> | [-> | [Hlm Hdate]]]; simpl; added; eauto.
  assert (Hf : field "lastModified" payload
               = inr (opt_field "lastModified" payload)).
  { destruct payload; simpl in Hlm; try discriminate; reflexivity. }
  rewrite Hf, Hlm.
  destruct (opt_field "lastModified" payload) eqn:E;
    try (simpl; added; eauto 6; fail).
  exfalso. eapply Hdate. reflexivity.
Qed.

Lemma touch_rejects_a_malformed_payload_witness :
  exists msg,
    reported Scenario.stored
      (fst (touch Scenario.runtime Scenario.tracking "abc" VNull
              Scenario.stored))
    = [Cb (Some (TypeError msg)) None].
Proof.
  exact (proj1 (@touch_rejects_a_malformed_payload
                  Scenario.runtime Scenario.tracking "abc" VNull
                  Scenario.stored (or_introl eq_refl))).
Defined.

(* ------------------------------------------------------------------ *)
(** ** What the writes keep *)

Lemma destroy_docs (self : MongoStore) (sid : string) (w : World)
  (b : Beyond) :
  docs (fst (fst (destroy self sid (w, b)))) = docs w
  \/ docs (fst (fst (destroy self sid (w, b))))
     = delete_first (computeStorageId self sid) (docs w).
Proof.
  unfold destroy. unfold_promise. simpl.
  destruct (connected w); simpl; [|now left].
  destruct (operational w); simpl; [now right | now left].
Qed.

Lemma clear_docs (w : World) (b : Beyond) :
  docs (fst (fst (clear (w, b)))) = docs w
  \/ docs (fst (fst (clear (w, b)))) = [].
Proof.
  unfold clear. unfold_promise. simpl.
  destruct (connected w); simpl; [|now left].
  destruct (operational w); simpl; [now right | now left].
Qed.

(** X22.  [set], [touch] and [destroy] act on the record of their own
    storage key only: whatever their outcome, the record stored under any
    other key is the one that was there. *)
Theorem other_sessions_are_untouched :
  forall (rt : Runtime) (self : MongoStore) (sid : string) (ref : nat)
         (payload : any) (w : World) (b : Beyond) (k' : string),
    k' <> computeStorageId self sid ->
    lookup k' (fst (set rt self sid ref w)) = lookup k' w
    /\ lookup k' (fst (touch rt self sid payload w)) = lookup k' w
    /\ lookup k' (fst (fst (destroy self sid (w, b)))) = lookup k' w.
Proof.
  intros rt self sid ref payload w b k' Hk. unfold lookup. repeat split.
  - destruct (set_docs rt self sid ref w) as [-> | [u ->]];
      [reflexivity | now apply upsert_other].
  - destruct (touch_docs rt self sid payload w) as [-> | (_ & u & ->)];
      [reflexivity | now apply upsert_other].
  - destruct (destroy_docs self sid w b) as [-> | ->];
      [reflexivity | now apply delete_first_other].
Qed.

Lemma other_sessions_are_untouched_witness :
  lookup "abc"
    (fst (set Scenario.runtime Scenario.plain "xyz" 0 Scenario.stored))
  = Some (Scenario.record (Some 1000500) (Some 5))
  /\ lookup "abc"
       (fst (fst (destroy Scenario.plain "xyz" (beyond Scenario.stored))))
     = Some (Scenario.record (Some 1000500) (Some 5)).
Proof.
  destruct (@other_sessions_are_untouched
              Scenario.runtime Scenario.plain "xyz" 0%nat Scenario.payload
              Scenario.stored More.nothing "abc") as (H1 & _ & H3).
  - discriminate.
  - split; [exact H1 | exact H3].
Defined.

(** X23.  A collection with at most one record per key stays so under
    [set], [touch], [destroy] and [clear], whatever their outcome; [touch]
    moreover neither adds nor removes a record. *)
Theorem writes_keep_one_record_per_key :
  forall (rt : Runtime) (self : MongoStore) (sid : string) (ref : nat)
         (payload : any) (w : World) (b : Beyond),
    unique_ids w ->
    unique_ids (fst (set rt self sid ref w))
    /\ unique_ids (fst (touch rt self sid payload w))
    /\ unique_ids (fst (fst (destroy self sid (w, b))))
    /\ unique_ids (fst (fst (clear (w, b))))
    /\ map _id (docs (fst (touch rt self sid payload w))) = map _id (docs w).
Proof.
  intros rt self sid ref payload w b Hu. unfold unique_ids in *.
  assert (Htouch : map _id (docs (fst (touch rt self sid payload w)))
                   = map _id (docs w)).
  { destruct (touch_docs rt self sid payload w) as [-> | (Hk & u & ->)];
      [reflexivity|].
    unfold upsert, lookup in *.
    destruct (update_first (computeStorageId self sid) u (docs w))
      as [[ds c]|] eqn:E.
    - eapply update_first_ids; eauto.
    - apply update_first_none in E. congruence. }
  repeat split.
  - destruct (set_docs rt self sid ref w) as [-> | [u ->]];
      [exact Hu | now apply upsert_unique].
  - now rewrite Htouch.
  - destruct (destroy_docs self sid w b) as [-> | ->];
      [exact Hu | now apply delete_first_unique].
  - destruct (clear_docs w b) as [-> | ->]; [exact Hu | constructor].
  - exact Htouch.
Qed.

Lemma writes_keep_one_record_per_key_witness :
  unique_ids Scenario.stored
  /\ unique_ids
       (fst (set Scenario.runtime Scenario.plain "xyz" 0 Scenario.stored))
  /\ map _id
       (docs (fst (set Scenario.runtime Scenario.plain "xyz" 0
                     Scenario.stored)))
     = ["abc"; "xyz"].
Proof.
  assert (Hu : unique_ids Scenario.stored).
  { unfold unique_ids. simpl. repeat constructor. simpl. tauto. }
  destruct (@writes_keep_one_record_per_key
              Scenario.runtime Scenario.plain "xyz" 0%nat Scenario.payload
              Scenario.stored More.nothing Hu) as (H & _).
  split; [exact Hu|]. split; [exact H | reflexivity].
Defined.

(* ------------------------------------------------------------------ *)
(** ** More on the transforms *)

(** The loop of [defaultSerializeFunction] over distinct properties, when
    [json] is what [session.cookie.toJSON ? ... : ...] gives for the
    cookie, if there is one. *)
Lemma for_in_normalizes (session json : any) (fs acc : list (string * any)) :
  (forall k v, In (k, v) fs -> opt_field k session = v) ->
  NoDup (map fst acc ++ map fst fs) ->
  (forall c, In ("cookie", c) fs -> cookie_toJSON c = inr json) ->
  for_in session (map fst fs) acc = inr (acc ++ map (copied json) fs).
Proof.
  revert acc.
  induction fs as [|[k v] fs IH]; intros acc Hval Hnd Hcookie.
  - simpl. now rewrite app_nil_r.
  - assert (Hfresh : ~ In k (map fst acc)).
    { simpl in Hnd. apply NoDup_remove_2 in Hnd.
      intros Hin. apply Hnd. apply in_or_app. now left. }
    assert (Hrest : forall acc' : list (string * any),
               map fst acc' = map fst acc ++ [k] ->
               NoDup (map fst acc' ++ map fst fs)).
    { intros acc' ->. rewrite <- app_assoc. exact Hnd. }
    cbn [map fst for_in]. unfold copy_prop, copied at 1. cbn [fst snd].
    destruct (k =? "cookie")%string eqn:E.
    + apply String.eqb_eq in E. subst k.
      rewrite (Hval "cookie" v) by (left; reflexivity).
      rewrite (Hcookie v (or_introl eq_refl)).
      rewrite assoc_set_fresh by exact Hfresh.
      rewrite IH.
      * now rewrite <- app_assoc.
      * intros k' v' Hin. apply Hval. now right.
      * apply Hrest. now rewrite map_app.
      * intros c Hin. apply Hcookie. now right.
    + rewrite (Hval k v) by (left; reflexivity).
      rewrite assoc_set_fresh by exact Hfresh.
      rewrite IH.
      * now rewrite <- app_assoc.
      * intros k' v' Hin. apply Hval. now right.
      * apply Hrest. now rewrite map_app.
      * intros c Hin. apply Hcookie. now right.
Qed.

(** The loop throws what the test of the cookie's [toJSON], or the call,
    throws. *)
Lemma for_in_throws (session : any) (props : list string)
  (acc : list (string * any)) (e : Exn) :
  cookie_toJSON (opt_field "cookie" session) = inl e ->
  In "cookie" props ->
  for_in session props acc = inl e.
Proof.
  intros Hc. revert acc.
  induction props as [|p props IH]; intros acc Hin; [destruct Hin|].
  cbn [for_in]. unfold copy_prop.
  destruct (p =? "cookie")%string eqn:E.
  - now rewrite Hc.
  - apply IH. destruct Hin as [-> | Hin]; [|exact Hin].
    now rewrite String.eqb_refl in E.
Qed.

Lemma copied_same (c : any) (fs : list (string * any)) :
  (forall v, In ("cookie", v) fs -> v = c) ->
  map (copied c) fs = fs.
Proof.
  induction fs as [|[k v] fs IH]; intros Hc; [reflexivity|].
  cbn [map]. rewrite IH by (intros v' Hin; apply Hc; now right).
  f_equal. unfold copied. cbn [fst snd].
  destruct (k =? "cookie")%string eqn:E; [|reflexivity].
  apply String.eqb_eq in E. subst k.
  now rewrite (Hc v (or_introl eq_refl)).
Qed.

(** [defaultSerializeFunction] on a session with distinct property names
    and the cookie [c]. *)
Lemma defaultSerializeFunction_cookie (j : option any)
  (fs : list (string * any)) (c : any) :
  NoDup (map fst fs) ->
  In ("cookie", c) fs ->
  defaultSerializeFunction (VObj j fs)
  = match cookie_toJSON c with
    | inl e => inl e
    | inr json => inr (VObj None (map (copied json) fs))
    end.
Proof.
  intros Hnd Hin. unfold defaultSerializeFunction. cbn [enumerable].
  assert (Hread : opt_field "cookie" (VObj j fs) = c).
  { simpl. now rewrite (assoc_in _ _ _ Hnd Hin). }
  destruct (cookie_toJSON c) as [e | json] eqn:E.
  - rewrite (@for_in_throws (VObj j fs) (map fst fs) [] e); [reflexivity| |].
    + now rewrite Hread.
    + apply (in_map fst) in Hin. exact Hin.
  - rewrite (@for_in_normalizes (VObj j fs) json fs []); [reflexivity| | |].
    + intros k v Hkv. simpl. now rewrite (assoc_in _ _ _ Hnd Hkv).
    + exact Hnd.
    + intros c' Hin'.
      assert (Hsame : Some c' = Some c).
      { rewrite <- (assoc_in _ _ _ Hnd Hin'). apply (assoc_in _ _ _ Hnd Hin). }
      inversion Hsame. exact E.
Qed.

Lemma the_cookie (fs : list (string * any)) (c : any) :
  NoDup (map fst fs) ->
  In ("cookie", c) fs ->
  forall v, In ("cookie", v) fs -> v = c.
Proof.
  intros Hnd Hin v Hv.
  assert (Hsame : Some v = Some c).
  { rewrite <- (assoc_in _ _ _ Hnd Hv). apply (assoc_in _ _ _ Hnd Hin). }
  now inversion Hsame.
Qed.



Lemma defaultSerializeFunction_plain (fs : list (string * any)) :
  NoDup (map fst fs) ->
  (forall v, In ("cookie", v) fs ->
             (exists own, v = VObj None own)
             /\ truthy (opt_field "toJSON" v) = false) ->
  defaultSerializeFunction (VObj None fs) = inr (VObj None fs).
Proof.
  intros Hnd Hplain.
  destruct (in_dec string_dec "cookie" (map fst fs)) as [Hin | Hno].
  - apply in_map_iff in Hin. destruct Hin as ([k c] & Hk & Hin).
    simpl in Hk. subst k.
    rewrite (@defaultSerializeFunction_cookie None fs c Hnd Hin).
    pose proof (@copied_same c fs (@the_cookie fs c Hnd Hin)) as Hsame.
    destruct (Hplain c Hin) as [[own ->] Hfalsy].
    unfold cookie_toJSON. rewrite Hfalsy.
    now rewrite Hsame.
  - now apply defaultSerializeFunction_copies.
Qed.

(** X25.  With [stringify: false] and no transform of the caller's, a
    plain session (a plain object with distinct property names, none of
    them [__proto__], whose cookie, if any, is a plain object) goes through
    [serialize] and back through [unserialize] unchanged, unless its cookie
    has a truthy property [toJSON] of its own: [serialize] then calls what
    is no function, and throws a [TypeError]. *)
Theorem structural_copy_round_trip :
  forall (rt : Runtime) (options : ConcretConnectMongoOptions)
         (fs : list (string * any)),
    let tf := computeTransformFunctions rt options in
    serialize options = None ->
    unserialize options = None ->
    stringify options = false ->
    NoDup (map fst fs) ->
    ~ In "__proto__" (map fst fs) ->
    (forall v, In ("cookie", v) fs -> exists own, v = VObj None own) ->
    ((forall v, In ("cookie", v) fs ->
                truthy (opt_field "toJSON" v) = false) ->
     exists stored,
       tf_serialize tf (VObj None fs) = inr stored
       /\ tf_unserialize tf stored = inr (VObj None fs))
    /\ (forall v, In ("cookie", v) fs ->
                  truthy (opt_field "toJSON" v) = true ->
                  tf_serialize tf (VObj None fs)
                  = inl (TypeError
                           "session.cookie.toJSON is not a function")).
Proof.
  intros rt options fs tf Hs Hu Hstr Hnd _ Hplain. subst tf.
  unfold computeTransformFunctions. rewrite Hs, Hu, Hstr. simpl. split.
  - intros Hfalsy. exists (VObj None fs). split; [|reflexivity].
    apply defaultSerializeFunction_plain; [exact Hnd|].
    intros v Hin. split; [now apply Hplain | now apply Hfalsy].
  - intros v Hin Htruthy.
    rewrite (@defaultSerializeFunction_cookie None fs v Hnd Hin).
    destruct (Hplain v Hin) as [own ->].
    unfold cookie_toJSON. now rewrite Htruthy.
Qed.

Lemma structural_copy_round_trip_witness :
  tf_serialize (transformFunctions Scenario.plain) Scenario.payload
  = inr Scenario.payload
  /\ tf_unserialize (transformFunctions Scenario.plain) Scenario.payload
     = inr Scenario.payload.
Proof.
  destruct (@structural_copy_round_trip
              Scenario.runtime (options Scenario.plain)
              [("cookie", VObj None []); ("user", VStr "u1")]
              eq_refl eq_refl eq_refl) as [Hround _].
  - repeat constructor; simpl; intuition discriminate.
  - simpl. intuition discriminate.
  - intros v [H | [H | []]]; inversion H; subst. now exists [].
  - destruct Hround as (stored & H1 & H2).
    + intros v [H | [H | []]]; inversion H; subst. reflexivity.
    + split; reflexivity.
Defined.

Lemma find_dead (k : string) (t : Z) (ds : list InternalSessionType)
  (d : InternalSessionType) :
  NoDup (map _id ds) ->
  find (by_id k) ds = Some d ->
  live t d = false ->
  find (matches (F_and [F_id k; not_expired t])) ds = None.
Proof.
  unfold by_id. induction ds as [|x ds IH]; simpl; [discriminate|].
  intros Hnd Hf Hl. inversion Hnd as [|? ? Hx Hnd']; subst.
  rewrite matches_get_query.
  destruct (_id x =? k)%string eqn:E; simpl.
  - inversion Hf; subst x. rewrite Hl.
    apply String.eqb_eq in E. subst k.
    apply find_absent. now apply find_by_id_none.
  - auto.
Qed.

(** X26.  A store constructed with no [touchAfter], no [ttl] and no
    [crypto] option has idle-touch tracking off, encryption off and a time
    to live of fourteen days: its [get] of a session without a live record
    calls back with [null], and its successful [set] stores the serialized
    payload as it is, to expire 1209600000 ms after the time [set] read
    when the cookie of the payload carries no expiry, and at the cookie's
    expiry when that is a date. *)
Theorem defaults_of_the_constructor :
  forall (rt : Runtime) (o : ConnectMongoOptions) (sid : string) (ref : nat)
         (w : World),
    let self := construct rt o in
    let k := computeStorageId self sid in
    o_touchAfter o = None ->
    o_ttl o = None ->
    o_crypto o = None ->
    (connected w = true -> operational w = true ->
     (forall d, lookup k w = Some d -> live (now w) d = false) ->
     unique_ids w ->
     reported w (fst (get rt self sid w)) = [Cb None (Some VNull)])
    /\ (In (Cb None None) (reported w (fst (set rt self sid ref w))) ->
        exists serialized d,
          tf_serialize (transformFunctions self) (heap w ref)
          = inr serialized
          /\ lookup k (fst (set rt self sid ref w)) = Some d
          /\ session d = serialized
          /\ (truthy (cookie_expires (heap w ref)) = false ->
              expires d = Some (now w + 1209600000))
          /\ (forall t, cookie_expires (heap w ref) = VDate t ->
                        expires d = Some t)).
Proof.
  intros rt o sid ref w self k Hta Httl Hcr. subst k.
  assert (Htrack : touchAfter (options self) = 0).
  { subst self. simpl. now rewrite Hta. }
  assert (Hlife : ttl (options self) = 1209600).
  { subst self. simpl. now rewrite Httl. }
  assert (Hplain : crypto_ self = None).
  { subst self. unfold construct. simpl. now rewrite Hcr. }
  split.
  - intros Hc Ho Hdead Hu.
    rewrite get_absent; try assumption.
    + now rewrite Htrack.
    + destruct (lookup (computeStorageId self sid) w) as [d|] eqn:Hd.
      * exact (@find_dead _ (now w) (docs w) d Hu Hd (Hdead d eq_refl)).
      * now apply find_absent.
  - intros Hok.
    destruct (set_success rt self sid ref w Hok) as (Hc & Ho & ser & Hser).
    destruct (set_stored rt self sid ref w Hc Ho Hser)
      as (d & Hd & Hs & He & _).
    assert (Hheap : heap (fst (set rt self sid ref w)) ref = heap w ref).
    { rewrite set_heap, Htrack. reflexivity. }
    rewrite Hheap in Hser.
    exists ser, d. repeat split; try assumption.
    + unfold stored_session in Hs. now rewrite Hplain in Hs.
    + intros Hcookie. rewrite He. unfold recomputed_expires.
      rewrite Hcookie, Hlife. reflexivity.
    + intros t Hcookie. rewrite He. unfold recomputed_expires.
      rewrite Hcookie. reflexivity.
Qed.


Lemma defaults_of_the_constructor_witness :
  In (Cb None None)
    (reported Scenario.fresh
       (fst (set Scenario.runtime
               (construct Scenario.runtime (Scenario.only_unserialize unit_))
               "abc" 0 Scenario.fresh)))
  /\ (exists d,
       lookup "abc"
         (fst (set Scenario.runtime
                 (construct Scenario.runtime
                    (Scenario.only_unserialize unit_))
                 "abc" 0 Scenario.fresh))
       = Some d
       /\ expires d = Some (1000000 + 1209600000))
  /\ exists d,
       lookup "abc"
         (fst (set Scenario.runtime
                 (construct Scenario.runtime
                    (Scenario.only_unserialize unit_))
                 "abc" 0 Scenario.expiring))
       = Some d
       /\ expires d = Some 1000500.
Proof.
  split; [vm_compute; auto|]. split.
  - destruct (@defaults_of_the_constructor
                Scenario.runtime (Scenario.only_unserialize unit_) "abc"
                0%nat Scenario.fresh eq_refl eq_refl eq_refl) as [_ H].
    destruct H as (ser & d & _ & Hd & _ & He & _).
    + vm_compute. auto.
    + exists d. split; [exact Hd | exact (He eq_refl)].
  - destruct (@defaults_of_the_constructor
                Scenario.runtime (Scenario.only_unserialize unit_) "abc"
                0%nat Scenario.expiring eq_refl eq_refl eq_refl) as [_ H].
    destruct H as (ser & d & _ & Hd & _ & _ & He).
    + vm_compute. auto.
    + exists d. split; [exact Hd | exact (He 1000500 eq_refl)].
Defined.
